(** * lbo_debt_calculator: amortization schedule and yearly aggregation

    Shallow embedding of [src/lbo_debt_calculator.py].

    The Python code computes on [float].  The embedding is written once,
    over an interface [PyFloat] of the arithmetic the code uses, and is
    instantiated twice:
    - [exact]: rational numbers [Q], for what holds of the formulas when
      nothing is rounded; a statement at this instance says so;
    - [binary64]: the IEEE 754 double-precision numbers Python computes
      with, for what the program does.

    A pandas [DataFrame] built from a list of row dictionaries is modelled
    by the list of rows, together with the one distinction pandas makes
    that the code depends on: a frame built from an empty list has no
    columns at all. *)

From Stdlib Require Import ZArith QArith Qpower Qround Qabs Lqa Lia.
From Stdlib Require Import List Sorted Permutation String.
From Stdlib Require Import PrimFloat Uint63.
From Stdlib Require Import NArith Ascii DecimalString DecimalN.
Import ListNotations.

Local Open Scope Z_scope.

(** ** Exceptions *)

Inductive exn : Type :=
| ZeroDivisionError
| OverflowError
| KeyError (key : string).

Inductive result (A : Type) : Type :=
| Ok (a : A)
| Raise (e : exn).

Arguments Ok {A} a.
Arguments Raise {A} e.

Definition bind {A B : Type} (m : result A) (k : A -> result B) : result B :=
  match m with
  | Ok a => k a
  | Raise e => Raise e
  end.

Notation "x <- m ;; k" := (bind m (fun x => k))
  (at level 61, m at next level, right associativity).

(** ** The arithmetic of Python floats *)

Class PyFloat (F : Type) : Type := {
  of_int : Z -> F;            (* int -> float conversion in mixed arithmetic *)
  fadd : F -> F -> F;
  fsub : F -> F -> F;
  fmul : F -> F -> F;
  fquot : F -> F -> F;        (* x / y for a nonzero y *)
  fpow : F -> Z -> F;         (* x ** n where Python defines it *)
  feqb : F -> F -> bool;      (* x == y *)
  fltb : F -> F -> bool;      (* x < y *)
  finite : F -> bool          (* math.isfinite(x) *)
}.

Section Python.
Context {F : Type} `{PyFloat F}.

(** [x / y]: true division raises on a zero divisor. *)
Definition py_div (x y : F) : result F :=
  if feqb y (of_int 0) then Raise ZeroDivisionError else Ok (fquot x y).

(** [x ** n]: zero cannot be raised to a negative power, and a power of a
    finite number that overflows raises [OverflowError].  (A power that
    underflows is returned as it is; at a finite base and an integer
    exponent the C library's [pow] is never NaN.) *)
Definition py_pow (x : F) (n : Z) : result F :=
  if feqb x (of_int 0) && (n <? 0) then Raise ZeroDivisionError
  else
    let v := fpow x n in
    if negb (finite v) && finite x then Raise OverflowError else Ok v.

(** [max(a, b)]: the second argument wins only when strictly larger. *)
Definition py_max (a b : F) : F := if fltb a b then b else a.

(** [range(lo, hi)] *)
Definition py_range (lo hi : Z) : list Z :=
  map (fun i => lo + Z.of_nat i) (seq 0 (Z.to_nat (hi - lo))).

(** [math.ceil(m / 12)] on integers [m]: the quotient of two (small)
    integers is rounded to a double that lies on the same side of every
    integer, so the ceiling is that of the exact quotient. *)
Definition ceil_div (m d : Z) : Z := Qceiling (inject_Z m / inject_Z d).

(** ** Data model *)

Record LoanInputs : Type := {
  principal : F;
  annual_rate : F;
  years : Z
}.

(** One dictionary appended to [rows]; the key ["principal"] holds the
    local [principal_paid]. *)
Record Row : Type := {
  month : Z;
  year : Z;
  payment : F;
  principal_paid : F;
  interest : F
}.

(** [pd.DataFrame(rows)] for these row dictionaries. *)
Inductive DataFrame : Type :=
| NoColumns                           (* pd.DataFrame([]) *)
| Schedule (records : list Row).      (* columns month .. interest *)

Definition pd_DataFrame (rows : list Row) : DataFrame :=
  match rows with
  | [] => NoColumns
  | _ :: _ => Schedule rows
  end.

Definition records (df : DataFrame) : list Row :=
  match df with
  | NoColumns => []
  | Schedule rows => rows
  end.

(** ** compute_monthly_schedule *)

(** Lines 17-23: [months], [monthly_rate] and [monthly_payment]. *)
Definition monthly_terms (loan : LoanInputs) : result (Z * F * F) :=
  let months := years loan * 12 in
  pct <- py_div (annual_rate loan) (of_int 100) ;;
  monthly_rate <- py_div pct (of_int 12) ;;
  monthly_payment <-
    (if feqb monthly_rate (of_int 0) then
       py_div (principal loan) (of_int months)
     else
       discount <- py_pow (fadd (of_int 1) monthly_rate) (- months) ;;
       py_div (fmul (principal loan) monthly_rate)
              (fsub (of_int 1) discount)) ;;
  Ok (months, monthly_rate, monthly_payment).

(** Lines 28-39: one iteration of the loop on the state [(rows, balance)]. *)
Definition loop_body (monthly_rate monthly_payment : F)
    (st : list Row * F) (m : Z) : list Row * F :=
  let '(rows, balance) := st in
  let interest := fmul balance monthly_rate in
  let principal_paid := fsub monthly_payment interest in
  let balance := py_max (of_int 0) (fsub balance principal_paid) in
  (rows ++ [ {| month := m;
                year := ceil_div m 12;
                payment := monthly_payment;
                principal_paid := principal_paid;
                interest := interest |} ],
   balance).

(** The dictionary appended in a month that starts with [balance]. *)
Definition row_of (monthly_rate monthly_payment balance : F) (m : Z) : Row :=
  {| month := m;
     year := ceil_div m 12;
     payment := monthly_payment;
     principal_paid := fsub monthly_payment (fmul balance monthly_rate);
     interest := fmul balance monthly_rate |}.

(** Lines 25-39: the loop run over the months [1 .. k]. *)
Definition run_loop (monthly_rate monthly_payment start : F) (k : Z)
  : list Row * F :=
  fold_left (loop_body monthly_rate monthly_payment)
            (py_range 1 (k + 1)) ([], start).

Definition compute_monthly_schedule (loan : LoanInputs) : result DataFrame :=
  terms <- monthly_terms loan ;;
  let '(months, monthly_rate, monthly_payment) := terms in
  Ok (pd_DataFrame
        (fst (run_loop monthly_rate monthly_payment (principal loan) months))).

(** The loop-carried [balance] after month [k] (the principal for [k = 0]). *)
Definition balance_after (loan : LoanInputs) (k : Z) : result F :=
  terms <- monthly_terms loan ;;
  let '(_, monthly_rate, monthly_payment) := terms in
  Ok (snd (run_loop monthly_rate monthly_payment (principal loan) k)).

(** ** aggregate_schedule *)

(** Group keys of [groupby("year")]: the distinct years, ascending. *)
Fixpoint insert_key (k : Z) (keys : list Z) : list Z :=
  match keys with
  | [] => [k]
  | h :: t =>
      if k <? h then k :: keys
      else if k =? h then keys
      else h :: insert_key k t
  end.

Definition group_keys (rows : list Row) : list Z :=
  fold_right insert_key [] (map year rows).

Definition group (rows : list Row) (k : Z) : list Row :=
  filter (fun r => year r =? k) rows.

(** The ["sum"] aggregation of one column over a group.  (In double
    precision pandas compensates the rounding of this sum; in exact
    arithmetic the order and the compensation do not matter.) *)
Definition col_sum (col : Row -> F) (rows : list Row) : F :=
  fold_right (fun r acc => fadd (col r) acc) (of_int 0) rows.

(** A row of [agg] after [reset_index()]. *)
Record AggRow : Type := {
  agg_year : Z;
  agg_payment : F;
  agg_principal : F;
  agg_interest : F;
  agg_months : Z
}.

(** A row of the returned frame: the columns "Année",
    "Remboursement du prêt", "Principal" and "Intérêt". *)
Record YearlyRow : Type := {
  annee : Z;
  remboursement : F;
  principal_col : F;
  interet : F
}.

Definition groupby_year_agg (rows : list Row) : list AggRow :=
  map (fun k =>
         let g := group rows k in
         {| agg_year := k;
            agg_payment := col_sum payment g;
            agg_principal := col_sum principal_paid g;
            agg_interest := col_sum interest g;
            agg_months := Z.of_nat (List.length g) |})
      (group_keys rows).

(** [agg[col] = agg[col] / agg["months"]] for the three amount columns
    (element-wise, no exception). *)
Definition monthly_means (a : AggRow) : AggRow :=
  {| agg_year := agg_year a;
     agg_payment := fquot (agg_payment a) (of_int (agg_months a));
     agg_principal := fquot (agg_principal a) (of_int (agg_months a));
     agg_interest := fquot (agg_interest a) (of_int (agg_months a));
     agg_months := agg_months a |}.

(** [drop(columns=["months"])] and [rename(...)]. *)
Definition drop_rename (a : AggRow) : YearlyRow :=
  {| annee := agg_year a;
     remboursement := agg_payment a;
     principal_col := agg_principal a;
     interet := agg_interest a |}.

Definition aggregate_schedule (df : DataFrame) (view : string)
  : result (list YearlyRow) :=
  match df with
  | NoColumns => Raise (KeyError "year")
  | Schedule rows =>
      let agg := groupby_year_agg rows in
      let agg :=
        if String.eqb view "Mensuel" then map monthly_means agg else agg in
      Ok (map drop_rename agg)
  end.

(** ** main, lines 93-97: the valuation multiple *)

(** [Some multiple] when the metric is shown, [None] when the
    informational message is shown instead. *)
Definition valuation_multiple (ebitda sell_price : F) : result (option F) :=
  if fltb (of_int 0) ebitda then
    multiple <- py_div sell_price ebitda ;;
    Ok (Some multiple)
  else Ok None.

End Python.

Arguments LoanInputs F : clear implicits.
Arguments Row F : clear implicits.
Arguments DataFrame F : clear implicits.
Arguments AggRow F : clear implicits.
Arguments YearlyRow F : clear implicits.

(** ** Exact arithmetic

    Rational numbers kept in lowest terms, as an exact implementation
    (Python's [fractions.Fraction]) keeps them, so that schedules of
    realistic length evaluate. *)

#[export] Instance exact : PyFloat Q := {
  of_int := inject_Z;
  fadd := fun a b => Qred (a + b);
  fsub := fun a b => Qred (a - b);
  fmul := fun a b => Qred (a * b);
  fquot := fun a b => Qred (a / b);
  fpow := fun a n => Qred (a ^ n);
  feqb := Qeq_bool;
  fltb := fun a b => negb (Qle_bool b a);
  finite := fun _ => true
}.

(** ** Double precision *)

Section Binary64.
(** The C library's [pow], which CPython calls for [x ** y] outside the
    special cases it decides itself. *)
Variable libm_pow : float -> float -> float.

Definition float_of_int (z : Z) : float :=
  if z <? 0 then PrimFloat.opp (PrimFloat.of_uint63 (Uint63.of_Z (- z)))
  else PrimFloat.of_uint63 (Uint63.of_Z z).

(** CPython's [float_pow]: [x ** 0] and [1.0 ** y] are [1.0] without
    calling [pow]. *)
Definition float_pow (x : float) (n : Z) : float :=
  if n =? 0 then PrimFloat.one
  else if PrimFloat.eqb x PrimFloat.one then PrimFloat.one
  else libm_pow x (float_of_int n).

Definition binary64 : PyFloat float := {|
  of_int := float_of_int;
  fadd := PrimFloat.add;
  fsub := PrimFloat.sub;
  fmul := PrimFloat.mul;
  fquot := PrimFloat.div;
  fpow := float_pow;
  feqb := PrimFloat.eqb;
  fltb := PrimFloat.ltb;
  finite := PrimFloat.is_finite
|}.
End Binary64.

(** The C library's [pow] at the arguments the examples use: two powers of
    two, which are exact ([2 ** 1200] overflows to infinity), and the double
    nearest to [(1 + 3.5 / 100 / 12) ** (-84)]. *)
Definition libm_pow_sample (x y : float) : float :=
  if PrimFloat.eqb x 2 && PrimFloat.eqb y (-84) then 0x1p-84%float
  else if PrimFloat.eqb x 2 && PrimFloat.eqb y 1200 then PrimFloat.infinity
  else if PrimFloat.eqb x 0x1.00bf258bf258cp+0 && PrimFloat.eqb y (-84)
       then 0x1.90e33d4b0d6acp-1%float
  else PrimFloat.nan.


(** * main: what the page shows

    The widgets of [main] are the arguments, the values it displays are
    the result; the strings it formats them into are left out. *)

Section Main.
Context {F : Type} `{PyFloat F}.

(** Truth value of a number: [if x]. *)
Definition truthy (x : F) : bool := negb (feqb x (of_int 0)).

(** The headline metric of lines 124-131: "Mensualite moyenne du pret" or
    "Remboursement annuel du pret", its value, and the ratio shown as its
    delta ([None] when there is none). *)
Inductive MetricLabel : Type := MensualiteMoyenne | RemboursementAnnuel.

Record Metric : Type := {
  label : MetricLabel;
  value : F;
  delta : option F
}.

(** A row of the table of lines 133-136, in its column order. *)
Record TableRow : Type := {
  t_annee : Z;
  cashflow : F;
  t_remboursement : F;
  t_principal : F;
  t_interet : F
}.

Record Page : Type := {
  multiple : option F;
  metric : Metric;
  yearly_table : list TableRow
}.

(** Lines 122-131. *)
Definition headline (ebitda monthly_payment : F) (view : string)
  : result Metric :=
  let yearly_payment := fmul monthly_payment (of_int 12) in
  if String.eqb view "Mensuel" then
    base_cf <- (if truthy ebitda then py_div ebitda (of_int 12)
                else Ok (of_int 0)) ;;
    delta <- (if truthy base_cf then
                ratio <- py_div monthly_payment base_cf ;; Ok (Some ratio)
              else Ok None) ;;
    Ok {| label := MensualiteMoyenne; value := monthly_payment; delta := delta |}
  else
    let base_cf := if truthy ebitda then ebitda else of_int 0 in
    delta <- (if truthy base_cf then
                ratio <- py_div yearly_payment base_cf ;; Ok (Some ratio)
              else Ok None) ;;
    Ok {| label := RemboursementAnnuel; value := yearly_payment; delta := delta |}.

(** Lines 93-136. *)
Definition main (ebitda sell_price annual_rate : F) (duration_years : Z)
    (principal : F) (view : string) : result Page :=
  multiple <- valuation_multiple ebitda sell_price ;;
  let loan := {| principal := principal;
                 annual_rate := annual_rate;
                 years := duration_years |} in
  monthly_schedule <- compute_monthly_schedule loan ;;
  let monthly_payment :=
    match records monthly_schedule with
    | row :: _ => payment row        (* monthly_schedule.loc[0, "payment"] *)
    | [] => of_int 0                 (* monthly_schedule.empty *)
    end in
  metric <- headline ebitda monthly_payment view ;;
  yearly_table <- aggregate_schedule monthly_schedule view ;;
  cashflow_value <- (if String.eqb view "Annuel" then Ok ebitda
                     else py_div ebitda (of_int 12)) ;;
  Ok {| multiple := multiple;
        metric := metric;
        yearly_table :=
          map (fun o => {| t_annee := annee o;
                           cashflow := cashflow_value;
                           t_remboursement := remboursement o;
                           t_principal := principal_col o;
                           t_interet := interet o |})
              yearly_table |}.

End Main.

Arguments Metric F : clear implicits.
Arguments TableRow F : clear implicits.
Arguments Page F : clear implicits.

(** * format_currency

    [f"${x:,.2f}"] writes the exact value of the number, rounded to two
    decimals with ties to the even digit, with a comma between groups of
    three integer digits; the sign of a negative number is kept even when
    it rounds to zero.  The amounts formatted here are those of exact
    arithmetic. *)

Definition round_half_even (y : Q) : Z :=
  let f := Qfloor y in
  match (y - inject_Z f ?= 1 # 2)%Q with
  | Lt => f
  | Gt => f + 1
  | Eq => if Z.even f then f else f + 1
  end.

Definition digits (n : N) : string := NilEmpty.string_of_uint (N.to_uint n).

Definition two_digits (n : N) : string :=
  if (n <? 10)%N then String "0" (digits n) else digits n.

(** A comma before every group of three digits that remains. *)
Fixpoint group_thousands (s : string) : string :=
  match s with
  | EmptyString => EmptyString
  | String c t =>
      String c
        (if (0 <? String.length t)%nat && (String.length t mod 3 =? 0)%nat
         then String "," (group_thousands t)
         else group_thousands t)
  end.

(** The number of cents written for [x]. *)
Definition cents_of (x : Q) : N := Z.to_N (round_half_even (Qabs x * 100)%Q).

(** [f"${x:,.2f}"] *)
Definition format_amount (x : Q) : string :=
  String "$"
    ((if Qle_bool 0 x then EmptyString else "-")
     ++ group_thousands (digits (cents_of x / 100))
     ++ String "." (two_digits (cents_of x mod 100)))%string.

(** A row of the formatted table: "Année" is left as it is, the numeric
    columns become strings. *)
Record FormattedRow : Type := {
  f_annee : Z;
  f_cashflow : string;
  f_remboursement : string;
  f_principal : string;
  f_interet : string
}.

Definition format_currency (df : list (TableRow Q)) : list FormattedRow :=
  map (fun row =>
         {| f_annee := t_annee row;
            f_cashflow := format_amount (cashflow row);
            f_remboursement := format_amount (t_remboursement row);
            f_principal := format_amount (t_principal row);
            f_interet := format_amount (t_interet row) |})
      df.

(** ** Reading a formatted amount back *)

Fixpoint remove_commas (s : string) : string :=
  match s with
  | EmptyString => EmptyString
  | String c t =>
      if Ascii.eqb c "," then remove_commas t else String c (remove_commas t)
  end.

Fixpoint split_dot (s : string) : option (string * string) :=
  match s with
  | EmptyString => None
  | String c t =>
      if Ascii.eqb c "." then Some (EmptyString, t)
      else match split_dot t with
           | Some (a, b) => Some (String c a, b)
           | None => None
           end
  end.

Definition number_of (s : string) : option N :=
  option_map N.of_uint (NilEmpty.uint_of_string s).

(** The amount a string "$", optional "-", grouped digits, ".", two digits
    stands for. *)
Definition parse_amount (s : string) : option Q :=
  match s with
  | EmptyString => None
  | String c rest =>
      if negb (Ascii.eqb c "$") then None
      else
        let (negative, body) :=
          match rest with
          | EmptyString => (false, rest)
          | String c' b => if Ascii.eqb c' "-" then (true, b) else (false, rest)
          end in
        match split_dot body with
        | None => None
        | Some (int_part, frac_part) =>
            match number_of (remove_commas int_part), number_of frac_part with
            | Some i, Some f =>
                if (String.length frac_part =? 2)%nat then
                  let amount := (inject_Z (Z.of_N (i * 100 + f)) / 100)%Q in
                  Some (if negative then (- amount)%Q else amount)
                else None
            | _, _ => None
            end
        end
  end.

(** [lacks c s]: the character [c] does not occur in [s]. *)
Fixpoint lacks (c : ascii) (s : string) : bool :=
  match s with
  | EmptyString => true
  | String c' t => negb (Ascii.eqb c' c) && lacks c t
  end.

(** The amount shown for [x]: its cents, with its sign. *)
Definition shown_amount (x : Q) : Q :=
  let amount := (inject_Z (Z.of_N (cents_of x)) / 100)%Q in
  if Qle_bool 0 x then amount else (- amount)%Q.

(** The string [s] reads as an amount within half a cent of [x]. *)
Definition reads_as (s : string) (x : Q) : Prop :=
  exists c, parse_amount s = Some c /\ (Qabs (c - x) <= 1 # 200)%Q.

(** * Definitions used in the statements *)

Local Open Scope Q_scope.

(** The documented input domain. *)
Definition valid (loan : LoanInputs Q) : Prop :=
  0 <= principal loan /\ 0 <= annual_rate loan /\ (1 <= years loan)%Z.

(** ** Sums of rational lists *)

Definition Qsum (l : list Q) : Q := fold_right Qplus 0 l.

(** ** The annuity factor

    [annuity q m] is the present value [1/q + ... + 1/q^m] of [m] unit
    payments at growth factor [q = 1 + monthly_rate]. *)

Fixpoint annuity (q : Q) (m : nat) : Q :=
  match m with
  | O => 0
  | S m' => (annuity q m' + 1) / q
  end.

(** ** Example inputs *)

Definition ex_loan : LoanInputs Q :=
  {| principal := 700000; annual_rate := 35 # 10; years := 7 |}.

Definition ex_zero_rate : LoanInputs Q :=
  {| principal := 120000; annual_rate := 0; years := 10 |}.

Definition ex_rows : list (Row Q) :=
  [ {| month := 1; year := 1; payment := 10; principal_paid := 7; interest := 3 |};
    {| month := 2; year := 1; payment := 10; principal_paid := 8; interest := 2 |};
    {| month := 13; year := 2; payment := 10; principal_paid := 9; interest := 1 |} ].

(** A rate so small that [1 + monthly_rate] rounds to [1.0]. *)
Definition tiny_rate_loan : LoanInputs float :=
  {| principal := 700000%float; annual_rate := 0x1p-50%float; years := 7 |}.

(** A rate so large that [1 - (1 + monthly_rate) ** (-84)] rounds to [1.0]. *)
Definition large_rate_loan : LoanInputs float :=
  {| principal := 700000%float; annual_rate := 1200%float; years := 7 |}.




(** A negative term long enough for [2.0 ** 1200] to overflow. *)
Definition overflow_loan : LoanInputs float :=
  {| principal := 700000%float; annual_rate := 1200%float; years := (-100)%Z |}.

(** A year of seven months whose payments sum to 29. *)
Definition ex_partial_year : list (Row float) :=
  map (fun mp : Z * float =>
         {| month := fst mp; year := 1%Z; payment := snd mp;
            principal_paid := snd mp; interest := 0%float |})
      [ (1%Z, 1%float); (2%Z, 2%float); (3%Z, 3%float); (4%Z, 4%float);
        (5%Z, 5%float); (6%Z, 6%float); (7%Z, 8%float) ].

Definition all_rows (p : Row Q -> bool) (res : result (DataFrame Q)) : bool :=
  match res with
  | Ok df => forallb p (records df)
  | Raise _ => false
  end.

Definition Qbetween (lo x hi : Q) : bool := Qle_bool lo x && Qle_bool x hi.


Local Open Scope Z_scope.

(** * Structure of the schedule, for any arithmetic *)

Lemma records_pd_DataFrame {F : Type} `{PyFloat F} (rows : list (Row F)) :
  records (pd_DataFrame rows) = rows.
Proof. destruct rows; reflexivity. Qed.

Section Structure.
Context {F : Type} `{PyFloat F}.

Lemma py_range_snoc (lo k : Z) :
  0 <= k -> py_range lo (k + lo + 1) = py_range lo (k + lo) ++ [k + lo].
Proof.
  intros Hk. unfold py_range.
  replace (k + lo + 1 - lo) with (Z.succ k) by lia.
  replace (k + lo - lo) with k by lia.
  rewrite Z2Nat.inj_succ by assumption.
  rewrite seq_S, map_app. cbn [map Nat.add].
  rewrite Z2Nat.id by assumption.
  replace (lo + k) with (k + lo) by lia. reflexivity.
Qed.

Lemma py_range_empty (lo hi : Z) : hi <= lo -> py_range lo hi = [].
Proof.
  intros Hle. unfold py_range.
  replace (Z.to_nat (hi - lo)) with O by lia. reflexivity.
Qed.

Variables r M P : F.

Lemma run_loop_nonpos (k : Z) : k <= 0 -> run_loop r M P k = ([], P).
Proof.
  intros Hk. unfold run_loop. rewrite py_range_empty by lia. reflexivity.
Qed.

Lemma run_loop_succ (k : Z) :
  0 <= k ->
  run_loop r M P (k + 1) = loop_body r M (run_loop r M P k) (k + 1).
Proof.
  intros Hk. unfold run_loop.
  rewrite py_range_snoc by assumption.
  rewrite fold_left_app. reflexivity.
Qed.

Lemma run_loop_step (k : Z) :
  0 <= k ->
  run_loop r M P (k + 1) =
    (fst (run_loop r M P k) ++ [row_of r M (snd (run_loop r M P k)) (k + 1)],
     py_max (of_int 0)
       (fsub (snd (run_loop r M P k))
             (fsub M (fmul (snd (run_loop r M P k)) r)))).
Proof.
  intros Hk. rewrite run_loop_succ by assumption.
  destruct (run_loop r M P k) as [rows b]. reflexivity.
Qed.

Lemma rows_length (k : Z) :
  List.length (fst (run_loop r M P k)) = Z.to_nat k.
Proof.
  destruct (Z.le_gt_cases k 0) as [Hk | Hk].
  - rewrite run_loop_nonpos by assumption. cbn. lia.
  - rewrite <- (Z2Nat.id k) by lia.
    induction (Z.to_nat k) as [| n IH].
    + reflexivity.
    + rewrite Nat2Z.inj_succ. unfold Z.succ.
      rewrite run_loop_step by lia. cbn [fst].
      rewrite length_app, IH. cbn [List.length]. lia.
Qed.

Lemma rows_nth (n i : nat) (d : Row F) :
  (i < n)%nat ->
  nth i (fst (run_loop r M P (Z.of_nat n))) d =
    row_of r M (snd (run_loop r M P (Z.of_nat i))) (Z.of_nat i + 1).
Proof.
  induction n as [| n IH]; intros Hi; [lia |].
  rewrite Nat2Z.inj_succ. unfold Z.succ.
  rewrite run_loop_step by lia. cbn [fst].
  assert (Hlen := rows_length (Z.of_nat n)). rewrite Nat2Z.id in Hlen.
  destruct (Nat.eq_dec i n) as [-> | Hne].
  - rewrite app_nth2 by lia. rewrite Hlen, Nat.sub_diag. reflexivity.
  - rewrite app_nth1 by lia. apply IH. lia.
Qed.

Lemma rows_In (k : Z) (row : Row F) :
  In row (fst (run_loop r M P k)) ->
  exists i, 0 <= i < k /\ row = row_of r M (snd (run_loop r M P i)) (i + 1).
Proof.
  intros Hin. destruct (In_nth _ _ row Hin) as [i [Hi Hnth]].
  rewrite rows_length in Hi.
  exists (Z.of_nat i). split; [lia |].
  rewrite <- Hnth. rewrite <- (Z2Nat.id k) by lia.
  apply rows_nth. exact Hi.
Qed.
End Structure.

(** Whatever the arithmetic, a schedule that is returned has one row per
    month [1 .. years * 12], in order. *)
Lemma schedule_shape_any_arithmetic {F : Type} `{PyFloat F}
    (loan : LoanInputs F) (df : DataFrame F) :
  compute_monthly_schedule loan = Ok df ->
  List.length (records df) = Z.to_nat (years loan * 12) /\
  (forall i d, (i < List.length (records df))%nat ->
     month (nth i (records df) d) = Z.of_nat i + 1).
Proof.
  unfold compute_monthly_schedule, monthly_terms.
  destruct (py_div (annual_rate loan) (of_int 100)) as [pct |]; [| discriminate].
  cbn [bind].
  destruct (py_div pct (of_int 12)) as [r |]; [| discriminate]. cbn [bind].
  destruct (if feqb r (of_int 0) then _ else _) as [M |]; [| discriminate].
  cbn [bind]. intros E. injection E as <-.
  rewrite records_pd_DataFrame, rows_length. split; [reflexivity |].
  intros i d Hi.
  destruct (Z.le_gt_cases (years loan * 12) 0) as [Hn | Hn]; [lia |].
  rewrite <- (Z2Nat.id (years loan * 12)) by lia.
  rewrite rows_nth by exact Hi. reflexivity.
Qed.

(** [ceil_div m 12] is the ceiling of [m / 12]. *)
Lemma ceil_div_12 (m : Z) :
  12 * (ceil_div m 12 - 1) < m <= 12 * ceil_div m 12.
Proof.
  unfold ceil_div.
  pose proof (Qle_ceiling (inject_Z m / inject_Z 12)) as Hle.
  pose proof (Qceiling_lt (inject_Z m / inject_Z 12)) as Hlt.
  set (c := Qceiling (inject_Z m / inject_Z 12)) in *.
  unfold Qle, Qlt, Qdiv, Qmult, Qinv, inject_Z in Hle, Hlt.
  cbn in Hle, Hlt. lia.
Qed.

(** * Exact arithmetic: the operations up to [==] *)

Local Open Scope Q_scope.

Lemma exact_add (a b : Q) : fadd a b == a + b.
Proof. apply Qred_correct. Qed.

Lemma exact_sub (a b : Q) : fsub a b == a - b.
Proof. apply Qred_correct. Qed.

Lemma exact_mul (a b : Q) : fmul a b == a * b.
Proof. apply Qred_correct. Qed.

Lemma exact_quot (a b : Q) : fquot a b == a / b.
Proof. apply Qred_correct. Qed.

Lemma exact_pow (a : Q) (n : Z) : fpow a n == a ^ n.
Proof. apply Qred_correct. Qed.

Lemma exact_eqb_false (a b : Q) : ~ a == b -> feqb a b = false.
Proof.
  intros N. destruct (feqb a b) eqn:E; [| reflexivity].
  exfalso. apply N. apply Qeq_bool_iff. exact E.
Qed.

Lemma py_div_exact (x y : Q) : ~ y == 0 -> py_div x y = Ok (fquot x y).
Proof.
  intros Hy. unfold py_div.
  rewrite (exact_eqb_false y (of_int 0)) by exact Hy. reflexivity.
Qed.

Lemma py_pow_exact (x : Q) (n : Z) : ~ x == 0 -> py_pow x n = Ok (fpow x n).
Proof.
  intros Hx. unfold py_pow.
  rewrite (exact_eqb_false x (of_int 0)) by exact Hx. reflexivity.
Qed.

Lemma py_max_exact_pos (x : Q) : 0 < x -> py_max (of_int 0) x = x.
Proof.
  intros Hx. unfold py_max. cbn [fltb exact of_int].
  destruct (Qle_bool x (inject_Z 0)) eqn:E; [| reflexivity].
  apply Qle_bool_iff in E. exfalso.
  apply (Qlt_irrefl 0). eapply Qlt_le_trans; [exact Hx | exact E].
Qed.

Lemma py_max_exact_nonpos (x : Q) : x <= 0 -> py_max (of_int 0) x = 0.
Proof.
  intros Hx. unfold py_max. cbn [fltb exact of_int].
  destruct (Qle_bool x (inject_Z 0)) eqn:E; [reflexivity |].
  assert (Qle_bool x (inject_Z 0) = true) as E' by (apply Qle_bool_iff; exact Hx).
  congruence.
Qed.

Lemma py_max_exact_nonneg (x : Q) : 0 <= x -> py_max (of_int 0) x == x.
Proof.
  intros Hx. destruct (Qlt_le_dec 0 x) as [Hpos | Hle].
  - rewrite py_max_exact_pos by exact Hpos. reflexivity.
  - rewrite py_max_exact_nonpos by exact Hle. lra.
Qed.

Lemma Qsum_cons (x : Q) (l : list Q) : Qsum (x :: l) = x + Qsum l.
Proof. reflexivity. Qed.

Lemma Qsum_app (l1 l2 : list Q) : Qsum (l1 ++ l2) == Qsum l1 + Qsum l2.
Proof.
  induction l1 as [| x l1 IH].
  - change (Qsum l2 == 0 + Qsum l2). lra.
  - change (Qsum (x :: (l1 ++ l2)) == Qsum (x :: l1) + Qsum l2).
    rewrite !Qsum_cons, IH. lra.
Qed.

Lemma col_sum_cons {F : Type} `{PyFloat F} (col : Row F -> F) (x : Row F)
    (rows : list (Row F)) :
  col_sum col (x :: rows) = fadd (col x) (col_sum col rows).
Proof. reflexivity. Qed.

Lemma col_sum_exact (col : Row Q -> Q) (rows : list (Row Q)) :
  col_sum col rows == Qsum (map col rows).
Proof.
  induction rows as [| x rows IH].
  - reflexivity.
  - rewrite col_sum_cons, exact_add, IH. reflexivity.
Qed.

Section Annuity.
Variable r : Q.
Hypothesis r_nonneg : 0 <= r.

Lemma annuity_rate_le (m : nat) : 0 <= annuity (1 + r) m /\ r * annuity (1 + r) m <= 1.
Proof.
  induction m as [| m [IH0 IH1]]; cbn [annuity].
  - split; lra.
  - assert (Hq : 0 < 1 + r) by lra.
    assert (Hinv : 0 < / (1 + r)) by (apply Qinv_lt_0_compat; exact Hq).
    assert (E : (annuity (1 + r) m + 1) / (1 + r) * (1 + r) == annuity (1 + r) m + 1)
      by (field; lra).
    set (a' := (annuity (1 + r) m + 1) / (1 + r)) in *.
    split; [| nra].
    unfold a', Qdiv. apply Qmult_le_0_compat; lra.
Qed.

Lemma annuity_nonneg (m : nat) : 0 <= annuity (1 + r) m.
Proof. apply annuity_rate_le. Qed.

Lemma annuity_succ (m : nat) :
  annuity (1 + r) (S m) * (1 + r) == annuity (1 + r) m + 1.
Proof. cbn [annuity]. field. lra. Qed.

Lemma annuity_pos (m : nat) : 0 < annuity (1 + r) (S m).
Proof.
  pose proof (annuity_succ m) as E. pose proof (annuity_nonneg m) as H0.
  pose proof (annuity_nonneg (S m)) as H1. nra.
Qed.

Lemma annuity_mono (m : nat) : annuity (1 + r) m <= annuity (1 + r) (S m).
Proof.
  pose proof (annuity_succ m) as E.
  destruct (annuity_rate_le m) as [H0 H1].
  destruct (annuity_rate_le (S m)) as [H2 H3]. nra.
Qed.

Lemma annuity_zero_rate (m : nat) :
  r == 0 -> annuity (1 + r) m == inject_Z (Z.of_nat m).
Proof.
  intros Hr. induction m as [| m IH].
  - reflexivity.
  - pose proof (annuity_succ m) as E. rewrite IH in E.
    rewrite Nat2Z.inj_succ. unfold Z.succ. rewrite inject_Z_plus.
    change (inject_Z 1) with 1. nra.
Qed.

Lemma annuity_closed (m : nat) :
  annuity (1 + r) m * r == 1 - (1 + r) ^ (- Z.of_nat m).
Proof.
  induction m as [| m IH].
  - cbn. lra.
  - assert (Hq : ~ 1 + r == 0) by lra.
    replace (- Z.of_nat (S m))%Z with (- Z.of_nat m + - 1)%Z by lia.
    rewrite (Qpower_plus _ _ _ Hq).
    change ((1 + r) ^ (- 1)) with (/ (1 + r)).
    change (annuity (1 + r) (S m)) with ((annuity (1 + r) m + 1) * / (1 + r)).
    assert (Hinv : / (1 + r) * (1 + r) == 1) by (field; lra).
    assert (E : annuity (1 + r) m * r * / (1 + r)
                == (1 - (1 + r) ^ (- Z.of_nat m)) * / (1 + r))
      by (rewrite IH; reflexivity).
    set (d := (1 + r) ^ (- Z.of_nat m)) in *.
    set (i := / (1 + r)) in *.
    set (a := annuity (1 + r) m) in *.
    nra.
Qed.
End Annuity.

(** * The schedule in exact arithmetic *)

Lemma of_int_nonzero (z : Z) : z <> 0%Z -> ~ @of_int Q exact z == 0.
Proof.
  intros Hz E. cbn [of_int exact] in E.
  unfold Qeq, inject_Z in E. cbn in E. lia.
Qed.

Lemma discount_lt_1 (r : Q) (n : nat) :
  0 < r -> (0 < n)%nat -> 0 < 1 - (1 + r) ^ (- Z.of_nat n).
Proof.
  intros Hr Hn. assert (Hr0 : 0 <= r) by lra.
  rewrite <- (annuity_closed r Hr0 n).
  destruct n as [| n]; [lia |].
  pose proof (annuity_pos r Hr0 n). nra.
Qed.

Lemma monthly_terms_valid (loan : LoanInputs Q) :
  valid loan ->
  exists r M,
    monthly_terms loan = Ok ((years loan * 12)%Z, r, M) /\
    r == annual_rate loan / 100 / 12 /\
    (r == 0 -> M == principal loan / inject_Z (years loan * 12)) /\
    (~ r == 0 ->
     M == principal loan * r / (1 - (1 + r) ^ (- (years loan * 12)))).
Proof.
  intros (HP & HR & HY). unfold monthly_terms.
  rewrite py_div_exact by (apply of_int_nonzero; lia). cbn [bind].
  rewrite py_div_exact by (apply of_int_nonzero; lia). cbn [bind].
  set (r := fquot (fquot (annual_rate loan) (of_int 100)) (of_int 12)).
  assert (Er : r == annual_rate loan / 100 / 12).
  { unfold r. rewrite !exact_quot. reflexivity. }
  assert (Hr0 : 0 <= r).
  { rewrite Er. unfold Qdiv.
    repeat apply Qmult_le_0_compat; try exact HR; apply Qinv_le_0_compat; lra. }
  destruct (feqb r (of_int 0)) eqn:Ez.
  - assert (Hz : r == 0) by (apply Qeq_bool_iff; exact Ez).
    rewrite py_div_exact by (apply of_int_nonzero; lia). cbn [bind].
    eexists _, _. split; [reflexivity |]. split; [exact Er |]. split.
    + intros _. rewrite exact_quot. reflexivity.
    + intros N. contradiction.
  - assert (Hnz : ~ r == 0).
    { intros E. apply Qeq_bool_iff in E. cbn [feqb exact of_int] in Ez.
      change (inject_Z 0) with 0 in Ez. congruence. }
    assert (Hpos : 0 < r) by lra.
    assert (Hbase : fadd (of_int 1) r == 1 + r) by (rewrite exact_add; reflexivity).
    rewrite py_pow_exact by (rewrite Hbase; lra). cbn [bind].
    assert (Hden : fsub (of_int 1) (fpow (fadd (of_int 1) r) (- (years loan * 12)))
                   == 1 - (1 + r) ^ (- (years loan * 12))).
    { rewrite exact_sub, exact_pow, Hbase. reflexivity. }
    assert (Hdpos : 0 < 1 - (1 + r) ^ (- (years loan * 12))).
    { rewrite <- (Z2Nat.id (years loan * 12)) by lia.
      apply discount_lt_1; [exact Hpos | lia]. }
    rewrite py_div_exact by (rewrite Hden; lra). cbn [bind].
    eexists _, _. split; [reflexivity |]. split; [exact Er |]. split.
    + intros E. contradiction.
    + intros _. rewrite exact_quot, exact_mul, Hden. reflexivity.
Qed.

(** The payment retires the principal: [principal = payment * annuity]. *)
Lemma monthly_terms_annuity (loan : LoanInputs Q) :
  valid loan ->
  exists r M,
    monthly_terms loan = Ok ((years loan * 12)%Z, r, M) /\
    r == annual_rate loan / 100 / 12 /\ 0 <= r /\ 0 <= M /\
    principal loan == M * annuity (1 + r) (Z.to_nat (years loan * 12)).
Proof.
  intros Hv. destruct (monthly_terms_valid loan Hv) as (r & M & Ht & Er & Hz & Hnz).
  destruct Hv as (HP & HR & HY).
  exists r, M. split; [exact Ht |]. split; [exact Er |].
  assert (Hr0 : 0 <= r).
  { rewrite Er. unfold Qdiv.
    repeat apply Qmult_le_0_compat; try exact HR; apply Qinv_le_0_compat; lra. }
  split; [exact Hr0 |].
  set (n := Z.to_nat (years loan * 12)).
  assert (Hn : (years loan * 12)%Z = Z.of_nat n) by (unfold n; lia).
  assert (Hapos : 0 < annuity (1 + r) n).
  { destruct n as [| n']; [lia |]. apply annuity_pos. exact Hr0. }
  assert (E : principal loan == M * annuity (1 + r) n).
  { destruct (Qeq_dec r 0) as [E0 | N0].
    - rewrite (Hz E0), (annuity_zero_rate r Hr0 n E0), Hn.
      field. intros E. rewrite <- (annuity_zero_rate r Hr0 n E0) in E. lra.
    - pose proof (annuity_closed r Hr0 n) as Hc.
      pose proof (discount_lt_1 r n ltac:(lra) ltac:(lia)) as Hd.
      rewrite (Hnz N0), Hn.
      set (d := (1 + r) ^ (- Z.of_nat n)) in *.
      assert (Ea : annuity (1 + r) n == (1 - d) / r) by (rewrite <- Hc; field; exact N0).
      rewrite Ea. field. split; lra. }
  split; [| exact E].
  destruct (Qlt_le_dec M 0) as [Hneg | Hge]; [| exact Hge].
  exfalso. nra.
Qed.

Section ExactLoop.
Variables r M P : Q.
Variable n : nat.
Hypothesis r_nonneg : 0 <= r.
Hypothesis M_nonneg : 0 <= M.
Hypothesis retires : P == M * annuity (1 + r) n.

(** The balance carried out of month [k], and the rows appended so far. *)
Local Abbreviation balance k := (snd (run_loop r M P (Z.of_nat k))).
Local Abbreviation rows_upto k := (fst (run_loop r M P (Z.of_nat k))).

Lemma balance_succ (k : nat) :
  balance (S k) =
    py_max (of_int 0) (fsub (balance k) (fsub M (fmul (balance k) r))).
Proof.
  rewrite Nat2Z.inj_succ. unfold Z.succ.
  rewrite run_loop_step by lia. reflexivity.
Qed.

Lemma rows_succ (k : nat) :
  rows_upto (S k) = rows_upto k ++ [row_of r M (balance k) (Z.of_nat k + 1)].
Proof.
  rewrite Nat2Z.inj_succ. unfold Z.succ.
  rewrite run_loop_step by lia. reflexivity.
Qed.

(** Remaining balance = present value of the remaining payments; the
    clamp at zero never fires. *)
Lemma balance_closed (k : nat) :
  (k <= n)%nat ->
  balance k == M * annuity (1 + r) (n - k) /\
  (forall k', k = S k' ->
     balance k == balance k' - (M - balance k' * r)).
Proof.
  induction k as [| k IH]; intros Hk.
  - split; [| discriminate].
    rewrite run_loop_nonpos by (cbn; lia). cbn [snd].
    rewrite Nat.sub_0_r. exact retires.
  - destruct IH as [IH _]; [lia |].
    assert (Hy : fsub (balance k) (fsub M (fmul (balance k) r))
                 == balance k - (M - balance k * r)).
    { rewrite !exact_sub, exact_mul. reflexivity. }
    assert (Hc : balance k - (M - balance k * r)
                 == M * annuity (1 + r) (n - S k)).
    { rewrite IH. replace (n - k)%nat with (S (n - S k)) by lia.
      pose proof (annuity_succ r r_nonneg (n - S k)) as E.
      set (a' := annuity (1 + r) (S (n - S k))) in *.
      set (a := annuity (1 + r) (n - S k)) in *. nra. }
    assert (Hge : 0 <= fsub (balance k) (fsub M (fmul (balance k) r))).
    { rewrite Hy, Hc. apply Qmult_le_0_compat;
        [exact M_nonneg | apply annuity_nonneg; exact r_nonneg]. }
    rewrite balance_succ.
    split.
    + rewrite (py_max_exact_nonneg _ Hge), Hy. exact Hc.
    + intros k' Hk'. injection Hk' as <-.
      rewrite (py_max_exact_nonneg _ Hge). exact Hy.
Qed.


Lemma balance_decreases (k : nat) : (k < n)%nat -> balance (S k) <= balance k.
Proof.
  intros Hk.
  destruct (balance_closed k ltac:(lia)) as [E _].
  destruct (balance_closed (S k) ltac:(lia)) as [E' _].
  rewrite E, E'. replace (n - k)%nat with (S (n - S k)) by lia.
  pose proof (annuity_mono r r_nonneg (n - S k)) as Hm.
  set (a' := annuity (1 + r) (S (n - S k))) in *.
  set (a := annuity (1 + r) (n - S k)) in *. nra.
Qed.

Lemma balance_final : balance n == 0.
Proof.
  destruct (balance_closed n (Nat.le_refl n)) as [E _].
  rewrite E, Nat.sub_diag. cbn [annuity]. lra.
Qed.

Lemma principal_paid_sum (k : nat) :
  (k <= n)%nat ->
  Qsum (map principal_paid (rows_upto k)) == P - balance k.
Proof.
  induction k as [| k IH]; intros Hk.
  - rewrite run_loop_nonpos by (cbn; lia).
    cbn [fst snd map]. change (Qsum []) with 0. lra.
  - destruct (balance_closed (S k) Hk) as [_ Hs].
    specialize (Hs k eq_refl).
    rewrite rows_succ, map_app, Qsum_app, IH by lia.
    cbn [map row_of principal_paid]. rewrite Qsum_cons.
    change (Qsum []) with 0.
    rewrite exact_sub, exact_mul, Hs. lra.
Qed.
End ExactLoop.

(** On the documented domain the loop runs with a payment that retires
    the principal. *)
Lemma schedule_returns (loan : LoanInputs Q) :
  valid loan ->
  exists r M,
    compute_monthly_schedule loan =
      Ok (pd_DataFrame (fst (run_loop r M (principal loan) (years loan * 12)))) /\
    (forall k, balance_after loan k = Ok (snd (run_loop r M (principal loan) k))) /\
    r == annual_rate loan / 100 / 12 /\ 0 <= r /\ 0 <= M /\
    principal loan == M * annuity (1 + r) (Z.to_nat (years loan * 12)) /\
    (r == 0 -> M == principal loan / inject_Z (years loan * 12)).
Proof.
  intros Hv.
  destruct (monthly_terms_annuity loan Hv) as (r & M & Ht & Er & Hr & HM & HP).
  destruct (monthly_terms_valid loan Hv) as (r' & M' & Ht' & _ & Hz & _).
  rewrite Ht in Ht'. injection Ht' as <- <-.
  exists r, M. unfold compute_monthly_schedule, balance_after. rewrite Ht.
  cbn [bind]. repeat split; try assumption.
Qed.

Lemma ex_loan_valid : valid ex_loan.
Proof. unfold valid, ex_loan, Qle; cbn. lia. Defined.

Lemma ex_zero_rate_valid : valid ex_zero_rate.
Proof. unfold valid, ex_zero_rate, Qle; cbn. lia. Defined.

(** * compute_monthly_schedule in exact arithmetic *)





(** C5: at a zero annual rate (principal >= 0, term >= 1 year) the
    schedule has its [years * 12] rows, every row's payment is
    [principal / (years * 12)] and every row's interest is zero. *)
Theorem zero_rate_straight_line (loan : LoanInputs Q) :
  annual_rate loan == 0 -> 0 <= principal loan -> (1 <= years loan)%Z ->
  exists df,
    compute_monthly_schedule loan = Ok df /\
    Z.of_nat (List.length (records df)) = (years loan * 12)%Z /\
    Forall (fun row =>
              payment row == principal loan / inject_Z (years loan * 12) /\
              interest row == 0)
           (records df).
Proof.
  intros HR HP HY.
  assert (Hv : valid loan) by (unfold valid; repeat split; try lra; exact HY).
  destruct (schedule_returns loan Hv) as (r & M & Hc & _ & Er & _ & _ & _ & Hz).
  assert (Hr : r == 0) by (rewrite Er, HR; reflexivity).
  eexists. split; [exact Hc |]. rewrite records_pd_DataFrame.
  split; [rewrite rows_length; lia |].
  apply Forall_forall. intros row Hin.
  destruct (rows_In _ _ _ _ _ Hin) as (i & _ & ->).
  cbn [row_of payment interest]. split.
  - apply Hz. exact Hr.
  - rewrite exact_mul. nra.
Qed.

Lemma zero_rate_straight_line_witness :
  exists df,
    compute_monthly_schedule ex_zero_rate = Ok df /\
    Z.of_nat (List.length (records df)) = (years ex_zero_rate * 12)%Z /\
    Forall (fun row =>
              payment row
                == principal ex_zero_rate / inject_Z (years ex_zero_rate * 12) /\
              interest row == 0)
           (records df).
Proof.
  apply (zero_rate_straight_line ex_zero_rate).
  - reflexivity.
  - unfold Qle; cbn; lia.
  - cbn; lia.
Defined.

(** The specification's examples, evaluated. *)

(** principal = 120000, rate 0, 10 years: 120 payments of exactly 1000. *)
Example zero_rate_example :
  all_rows (fun row => Qeq_bool (payment row) 1000 && Qeq_bool (interest row) 0
                       && Qeq_bool (principal_paid row) 1000)
           (compute_monthly_schedule ex_zero_rate) = true /\
  (match compute_monthly_schedule ex_zero_rate with
   | Ok df => List.length (records df)
   | Raise _ => O
   end) = 120%nat.
Proof. split; vm_compute; reflexivity. Qed.

(** principal = 700000, rate 3.5, 7 years: the code's payment is 9407.90,
    its first interest 2041.67 and first principal portion 7366.23 (to the
    cent). *)
Example annuity_example :
  all_rows (fun row => Qbetween (9407890 # 1000) (payment row) (9407900 # 1000))
           (compute_monthly_schedule ex_loan) = true /\
  (match compute_monthly_schedule ex_loan with
   | Ok df =>
       match records df with
       | row :: _ =>
           Qbetween (2041665 # 1000) (interest row) (2041675 # 1000)
           && Qbetween (7366225 # 1000) (principal_paid row) (7366235 # 1000)
           && (month row =? 1)%Z && (year row =? 1)%Z
       | [] => false
       end
   | Raise _ => false
   end) = true.
Proof. split; vm_compute; reflexivity. Qed.

(** * aggregate_schedule *)

Local Open Scope Z_scope.

Section Groups.
Context {F : Type} `{PyFloat F}.

Lemma insert_key_In (k x : Z) (keys : list Z) :
  In x (insert_key k keys) <-> x = k \/ In x keys.
Proof.
  induction keys as [| h t IH]; cbn [insert_key].
  - cbn. intuition.
  - destruct (Z.ltb_spec k h) as [Hlt | Hge].
    + cbn. intuition.
    + destruct (Z.eqb_spec k h) as [-> | Hne].
      * cbn. intuition.
      * cbn [In]. rewrite IH. intuition.
Qed.

Lemma insert_key_sorted (k : Z) (keys : list Z) :
  StronglySorted Z.lt keys -> StronglySorted Z.lt (insert_key k keys).
Proof.
  induction 1 as [| h t Hs IH Hall]; cbn [insert_key].
  - repeat constructor.
  - destruct (Z.ltb_spec k h) as [Hlt | Hge].
    + constructor; [constructor; assumption |].
      constructor; [exact Hlt |].
      eapply Forall_impl; [| exact Hall]. intros a Ha. cbn in Ha. lia.
    + destruct (Z.eqb_spec k h) as [-> | Hne].
      * constructor; assumption.
      * constructor; [exact IH |].
        apply Forall_forall. intros x Hx.
        apply insert_key_In in Hx. destruct Hx as [-> | Hx]; [lia |].
        rewrite Forall_forall in Hall. apply Hall. exact Hx.
Qed.

Lemma group_keys_In (rows : list (Row F)) (y : Z) :
  In y (group_keys rows) <-> In y (map year rows).
Proof.
  unfold group_keys. induction (map year rows) as [| h t IH]; cbn [fold_right].
  - reflexivity.
  - rewrite insert_key_In, IH. cbn. intuition.
Qed.

Lemma group_keys_sorted (rows : list (Row F)) :
  StronglySorted Z.lt (group_keys rows).
Proof.
  unfold group_keys. induction (map year rows) as [| h t IH]; cbn [fold_right].
  - constructor.
  - apply insert_key_sorted. exact IH.
Qed.

Lemma sorted_NoDup (keys : list Z) : StronglySorted Z.lt keys -> NoDup keys.
Proof.
  induction 1 as [| h t Hs IH Hall]; constructor; [| exact IH].
  intros Hin. rewrite Forall_forall in Hall. specialize (Hall h Hin). lia.
Qed.

Lemma group_nonempty (rows : list (Row F)) (y : Z) :
  In y (group_keys rows) -> (0 < List.length (group rows y))%nat.
Proof.
  intros Hin. apply group_keys_In in Hin. apply in_map_iff in Hin.
  destruct Hin as (row & Hy & Hrow).
  assert (Hg : In row (group rows y)).
  { unfold group. apply filter_In. split; [exact Hrow |]. lia. }
  destruct (group rows y); [contradiction | cbn; lia].
Qed.

(** The frame returned for a schedule with columns, by display mode. *)
Lemma aggregate_schedule_totals (rows : list (Row F)) (view : string) :
  view <> "Mensuel"%string ->
  aggregate_schedule (Schedule rows) view =
    Ok (map (fun y =>
               {| annee := y;
                  remboursement := col_sum payment (group rows y);
                  principal_col := col_sum principal_paid (group rows y);
                  interet := col_sum interest (group rows y) |})
            (group_keys rows)).
Proof.
  intros Hv. unfold aggregate_schedule.
  destruct (String.eqb_spec view "Mensuel") as [E | _]; [contradiction |].
  unfold groupby_year_agg. rewrite map_map. reflexivity.
Qed.

Lemma aggregate_schedule_means (rows : list (Row F)) :
  aggregate_schedule (Schedule rows) "Mensuel" =
    Ok (map (fun y =>
               let months := of_int (Z.of_nat (List.length (group rows y))) in
               {| annee := y;
                  remboursement := fquot (col_sum payment (group rows y)) months;
                  principal_col :=
                    fquot (col_sum principal_paid (group rows y)) months;
                  interet := fquot (col_sum interest (group rows y)) months |})
            (group_keys rows)).
Proof.
  unfold aggregate_schedule. cbn [String.eqb Ascii.eqb Bool.eqb].
  unfold groupby_year_agg. rewrite !map_map. reflexivity.
Qed.
End Groups.

Local Open Scope Q_scope.

Lemma Qsum_map_ext {A : Type} (f g : A -> Q) (l : list A) :
  (forall a, In a l -> f a == g a) -> Qsum (map f l) == Qsum (map g l).
Proof.
  induction l as [| x l IH]; intros Hfg.
  - reflexivity.
  - cbn [map]. rewrite !Qsum_cons, IH.
    + rewrite (Hfg x (or_introl eq_refl)). reflexivity.
    + intros a Ha. apply Hfg. right. exact Ha.
Qed.

Lemma Qsum_zeros {A : Type} (f : A -> Q) (l : list A) :
  (forall a, f a == 0) -> Qsum (map f l) == 0.
Proof.
  intros Hf. induction l as [| x l IH].
  - reflexivity.
  - cbn [map]. rewrite Qsum_cons, IH, Hf. lra.
Qed.

(** A value counted once for its own key. *)
Lemma Qsum_select (y : Z) (c : Q) (keys : list Z) :
  NoDup keys ->
  Qsum (map (fun k => if (y =? k)%Z then c else 0) keys)
    == if in_dec Z.eq_dec y keys then c else 0.
Proof.
  induction 1 as [| h t Hnin Hnd IH].
  - reflexivity.
  - cbn [map]. rewrite Qsum_cons, IH.
    destruct (Z.eqb_spec y h) as [-> | Hne].
    + destruct (in_dec Z.eq_dec h t) as [Hin | _]; [contradiction |].
      destruct (in_dec Z.eq_dec h (h :: t)) as [_ | Hn]; [lra |].
      exfalso. apply Hn. left. reflexivity.
    + destruct (in_dec Z.eq_dec y t) as [Hin | Hnin'];
        destruct (in_dec Z.eq_dec y (h :: t)) as [Hin2 | Hnin2]; try lra.
      * exfalso. apply Hnin2. right. exact Hin.
      * exfalso. destruct Hin2 as [E | Hin2]; [congruence | contradiction].
Qed.

(** Summing the groups of a partition by year sums every row once. *)
Lemma Qsum_groups (col : Row Q -> Q) (keys : list Z) (rows : list (Row Q)) :
  NoDup keys ->
  (forall row, In row rows -> In (year row) keys) ->
  Qsum (map (fun k => Qsum (map col (group rows k))) keys)
    == Qsum (map col rows).
Proof.
  intros Hnd. induction rows as [| x rows IH]; intros Hcov.
  - apply Qsum_zeros. intros k. reflexivity.
  - cbn [map]. rewrite Qsum_cons.
    rewrite <- IH by (intros row Hrow; apply Hcov; right; exact Hrow).
    assert (Hx : In (year x) keys) by (apply Hcov; left; reflexivity).
    pose proof (Qsum_select (year x) (col x) keys Hnd) as Hsel.
    destruct (in_dec Z.eq_dec (year x) keys) as [_ | N]; [| contradiction].
    rewrite <- Hsel. clear Hsel Hx Hcov IH Hnd.
    induction keys as [| k keys IHk].
    + change (Qsum (map _ [])) with 0. lra.
    + cbn [map]. rewrite !Qsum_cons, IHk.
      unfold group at 1. cbn [filter].
      destruct (Z.eqb_spec (year x) k) as [E | N].
      * cbn [map]. rewrite Qsum_cons. unfold group. lra.
      * unfold group. lra.
Qed.



Lemma Forall2_map_same {A B C : Type} (R : B -> C -> Prop)
    (f : A -> B) (g : A -> C) (l : list A) :
  (forall a, In a l -> R (f a) (g a)) -> Forall2 R (map f l) (map g l).
Proof.
  induction l as [| x l IH]; intros HR; cbn [map]; constructor.
  - apply HR. left. reflexivity.
  - apply IH. intros a Ha. apply HR. right. exact Ha.
Qed.

(** The example frame, aggregated in both modes. *)
Example aggregate_example :
  aggregate_schedule (pd_DataFrame ex_rows) "Annuel" =
    Ok [ {| annee := 1; remboursement := 20; principal_col := 15; interet := 5 |};
         {| annee := 2; remboursement := 10; principal_col := 9; interet := 1 |} ] /\
  aggregate_schedule (pd_DataFrame ex_rows) "Mensuel" =
    Ok [ {| annee := 1; remboursement := 10; principal_col := 15 # 2; interet := 5 # 2 |};
         {| annee := 2; remboursement := 10; principal_col := 9; interet := 1 |} ].
Proof. split; vm_compute; reflexivity. Qed.

(** C8: [aggregate_schedule] on an empty schedule.  The frame that
    [pd.DataFrame] builds from an empty list of rows has no "year" column
    and the [groupby] raises [KeyError]; only an empty frame that does
    carry the schedule's columns yields the empty output. *)
Theorem aggregate_empty_schedule {F : Type} `{PyFloat F} (view : string) :
  aggregate_schedule (pd_DataFrame []) view = Raise (KeyError "year") /\
  aggregate_schedule (Schedule []) view = Ok [].
Proof.
  split; [reflexivity |].
  unfold aggregate_schedule. destruct (String.eqb view "Mensuel"); reflexivity.
Qed.

(** An empty schedule is what [compute_monthly_schedule] returns for a
    negative term. *)
Example negative_term_empty_frame :
  compute_monthly_schedule
    {| principal := 700000; annual_rate := 35 # 10; years := (-1)%Z |}
  = Ok NoColumns.
Proof. vm_compute. reflexivity. Qed.



(** The specification's mode names are not recognised: "MonthlyAverage"
    gives totals, not averages. *)
Example mode_names_give_totals :
  aggregate_schedule (Schedule ex_rows) "MonthlyAverage"
    = aggregate_schedule (Schedule ex_rows) "Annuel" /\
  aggregate_schedule (Schedule ex_rows) "Totals"
    = aggregate_schedule (Schedule ex_rows) "Annuel" /\
  aggregate_schedule (Schedule ex_rows) "Mensuel"
    <> aggregate_schedule (Schedule ex_rows) "Annuel".
Proof.
  repeat split; try (vm_compute; reflexivity).
  vm_compute. discriminate.
Qed.

(** * Totality of the core *)

(** In exact arithmetic the core is total on the documented domain. *)
Lemma core_total_exact (loan : LoanInputs Q) (view : string) :
  valid loan ->
  exists df out,
    compute_monthly_schedule loan = Ok df /\
    aggregate_schedule df view = Ok out.
Proof.
  intros Hv.
  destruct (schedule_returns loan Hv) as (r & M & Hc & _).
  destruct Hv as (_ & _ & HY).
  pose proof (rows_length r M (principal loan) (years loan * 12)) as Hlen.
  destruct (fst (run_loop r M (principal loan) (years loan * 12)))
    as [| row rows] eqn:E.
  - cbn in Hlen. lia.
  - exists (Schedule (row :: rows)). unfold aggregate_schedule.
    eexists. split; [exact Hc | reflexivity].
Qed.

(** The multiple is computed exactly when the EBITDA is positive. *)
Lemma valuation_multiple_exact (ebitda sell_price : Q) :
  (0 < ebitda ->
   valuation_multiple ebitda sell_price = Ok (Some (fquot sell_price ebitda))) /\
  (ebitda <= 0 -> valuation_multiple ebitda sell_price = Ok None).
Proof.
  unfold valuation_multiple. cbn [fltb exact of_int]. split; intros He.
  - destruct (Qle_bool ebitda (inject_Z 0)) eqn:E.
    + apply Qle_bool_iff in E. change (inject_Z 0) with 0 in E. lra.
    + cbn [negb]. rewrite py_div_exact by lra. reflexivity.
  - assert (E : Qle_bool ebitda (inject_Z 0) = true)
      by (apply Qle_bool_iff; exact He).
    rewrite E. reflexivity.
Qed.

(** C9: in double precision the guard [monthly_rate == 0] does not cover
    every zero denominator.  For the annual rate 2^-50 the monthly rate is
    not zero, so the annuity branch is taken, but [1 + monthly_rate] is
    [1.0], the denominator [1 - 1.0 ** (-84)] is zero and the division
    raises [ZeroDivisionError], whatever the C library's [pow] is. *)
Theorem tiny_rate_raises (libm_pow : float -> float -> float) :
  PrimFloat.ltb 0 (annual_rate tiny_rate_loan) = true /\
  PrimFloat.eqb (annual_rate tiny_rate_loan / 100 / 12) 0 = false /\
  @compute_monthly_schedule float (binary64 libm_pow) tiny_rate_loan
    = Raise ZeroDivisionError.
Proof. repeat split; vm_compute; reflexivity. Qed.

(** The zero-rate example in double precision: 120 payments of 1000.0,
    no interest. *)
Example zero_rate_example_binary64 (libm_pow : float -> float -> float) :
  match @compute_monthly_schedule float (binary64 libm_pow)
          {| principal := 120000%float; annual_rate := 0%float; years := 10 |}
  with
  | Ok df =>
      (List.length (records df) =? 120)%nat
      && forallb (fun row => PrimFloat.eqb (payment row) 1000
                             && PrimFloat.eqb (interest row) 0)
                 (records df)
  | Raise _ => false
  end = true.
Proof. vm_compute. reflexivity. Qed.

(** * Further properties of the schedule (exact arithmetic) *)

Section ExactRows.
Variables r M P : Q.
Variable n : nat.
Hypothesis r_nonneg : 0 <= r.
Hypothesis M_nonneg : 0 <= M.
Hypothesis retires : P == M * annuity (1 + r) n.

Local Abbreviation bal k := (snd (run_loop r M P (Z.of_nat k))).

(** The interest of a month never exceeds the payment. *)
Lemma interest_bounds (k : nat) :
  (k <= n)%nat -> 0 <= bal k * r /\ bal k * r <= M.
Proof.
  intros Hk.
  destruct (balance_closed r M P n r_nonneg M_nonneg retires k Hk) as [E _].
  destruct (annuity_rate_le r r_nonneg (n - k)) as [Ha Hra].
  rewrite E. set (a := annuity (1 + r) (n - k)) in *.
  assert (Ht0 : 0 <= r * a) by nra.
  assert (Ht1 : 0 <= 1 - r * a) by lra.
  pose proof (Qmult_le_0_compat _ _ M_nonneg Ht0) as H0.
  pose proof (Qmult_le_0_compat _ _ M_nonneg Ht1) as H1.
  split; lra.
Qed.

Lemma interest_decreases (k : nat) :
  (k < n)%nat -> bal (S k) * r <= bal k * r.
Proof.
  intros Hk.
  pose proof (balance_decreases r M P n r_nonneg M_nonneg retires k Hk) as Hd.
  nra.
Qed.

Lemma zero_payment_zero_balance (k : nat) :
  (k <= n)%nat -> M == 0 -> bal k == 0.
Proof.
  intros Hk HM.
  destruct (balance_closed r M P n r_nonneg M_nonneg retires k Hk) as [E _].
  rewrite E, HM. lra.
Qed.
End ExactRows.

(** X1: on the domain, no amount of a row is negative and the interest of a
    month never exceeds the payment. *)
Theorem row_amounts_nonneg (loan : LoanInputs Q) :
  valid loan ->
  exists df,
    compute_monthly_schedule loan = Ok df /\
    Forall (fun row =>
              0 <= interest row /\ interest row <= payment row /\
              0 <= principal_paid row /\ principal_paid row <= payment row)
           (records df).
Proof.
  intros Hv.
  destruct (schedule_returns loan Hv) as (r & M & Hc & _ & _ & Hr & HM & Hret & _).
  destruct Hv as (_ & _ & HY).
  eexists. split; [exact Hc |]. rewrite records_pd_DataFrame.
  apply Forall_forall. intros row Hin.
  destruct (rows_In _ _ _ _ _ Hin) as (i & Hi & ->).
  cbn [row_of payment principal_paid interest].
  rewrite exact_sub, exact_mul.
  rewrite <- (Z2Nat.id i) by lia.
  destruct (interest_bounds r M (principal loan) _ Hr HM Hret (Z.to_nat i)) as [H0 H1];
    [lia |].
  repeat split; lra.
Qed.

Lemma row_amounts_nonneg_witness :
  exists df,
    compute_monthly_schedule ex_loan = Ok df /\
    Forall (fun row =>
              0 <= interest row /\ interest row <= payment row /\
              0 <= principal_paid row /\ principal_paid row <= payment row)
           (records df).
Proof. exact (row_amounts_nonneg ex_loan ex_loan_valid). Defined.

(** X2: on the domain, from one month to the next the interest portion never
    increases and the principal portion never decreases. *)
Theorem interest_falls_principal_rises (loan : LoanInputs Q) :
  valid loan ->
  exists df,
    compute_monthly_schedule loan = Ok df /\
    forall i d, (S i < List.length (records df))%nat ->
      interest (nth (S i) (records df) d) <= interest (nth i (records df) d) /\
      principal_paid (nth i (records df) d)
        <= principal_paid (nth (S i) (records df) d).
Proof.
  intros Hv.
  destruct (schedule_returns loan Hv) as (r & M & Hc & _ & _ & Hr & HM & Hret & _).
  destruct Hv as (_ & _ & HY).
  eexists. split; [exact Hc |]. rewrite records_pd_DataFrame.
  intros i d Hi. rewrite rows_length in Hi.
  rewrite <- (Z2Nat.id (years loan * 12)) by lia.
  rewrite !rows_nth by lia.
  cbn [row_of principal_paid interest].
  rewrite !exact_sub, !exact_mul.
  pose proof (interest_decreases r M (principal loan) _ Hr HM Hret i ltac:(lia)) as Hd.
  split; lra.
Qed.

Lemma interest_falls_principal_rises_witness :
  exists df,
    compute_monthly_schedule ex_loan = Ok df /\
    forall i d, (S i < List.length (records df))%nat ->
      interest (nth (S i) (records df) d) <= interest (nth i (records df) d) /\
      principal_paid (nth i (records df) d)
        <= principal_paid (nth (S i) (records df) d).
Proof. exact (interest_falls_principal_rises ex_loan ex_loan_valid). Defined.

(** X3: A loan of zero principal (rate >= 0, term >= 1 year) has its
    [years * 12] rows, all with zero payment, principal and interest. *)
Theorem zero_principal_zero_rows (loan : LoanInputs Q) :
  principal loan == 0 -> 0 <= annual_rate loan -> (1 <= years loan)%Z ->
  exists df,
    compute_monthly_schedule loan = Ok df /\
    Z.of_nat (List.length (records df)) = (years loan * 12)%Z /\
    Forall (fun row =>
              payment row == 0 /\ principal_paid row == 0 /\ interest row == 0)
           (records df).
Proof.
  intros HP HR HY.
  assert (Hv : valid loan) by (unfold valid; repeat split; try lra; exact HY).
  destruct (schedule_returns loan Hv) as (r & M & Hc & _ & _ & Hr & HM & Hret & _).
  eexists. split; [exact Hc |]. rewrite records_pd_DataFrame.
  split; [rewrite rows_length; lia |].
  assert (HM0 : M == 0).
  { pose proof (annuity_pos r Hr (Z.to_nat (years loan * 12) - 1)) as Ha.
    replace (S (Z.to_nat (years loan * 12) - 1)) with (Z.to_nat (years loan * 12))
      in Ha by lia.
    rewrite HP in Hret.
    set (a := annuity (1 + r) (Z.to_nat (years loan * 12))) in *. nra. }
  apply Forall_forall. intros row Hin.
  destruct (rows_In _ _ _ _ _ Hin) as (i & Hi & ->).
  cbn [row_of payment principal_paid interest].
  rewrite exact_sub, exact_mul.
  rewrite <- (Z2Nat.id i) by lia.
  pose proof (zero_payment_zero_balance r M (principal loan) _ Hr HM Hret
                (Z.to_nat i) ltac:(lia) HM0) as Hb.
  repeat split; nra.
Qed.

Lemma zero_principal_zero_rows_witness :
  exists df,
    compute_monthly_schedule
      {| principal := 0; annual_rate := 35 # 10; years := 7 |} = Ok df /\
    Z.of_nat (List.length (records df)) = (7 * 12)%Z /\
    Forall (fun row =>
              payment row == 0 /\ principal_paid row == 0 /\ interest row == 0)
           (records df).
Proof.
  apply (zero_principal_zero_rows
           {| principal := 0; annual_rate := 35 # 10; years := 7 |}).
  - reflexivity.
  - unfold Qle; cbn; lia.
  - cbn; lia.
Defined.

(** * Terms outside the domain *)

Lemma binary64_100_nonzero (libm_pow : float -> float -> float) :
  @feqb float (binary64 libm_pow)
    (@of_int float (binary64 libm_pow) 100)
    (@of_int float (binary64 libm_pow) 0) = false.
Proof. vm_compute. reflexivity. Qed.

Lemma binary64_12_nonzero (libm_pow : float -> float -> float) :
  @feqb float (binary64 libm_pow)
    (@of_int float (binary64 libm_pow) 12)
    (@of_int float (binary64 libm_pow) 0) = false.
Proof. vm_compute. reflexivity. Qed.

(** X4: A term of zero years raises [ZeroDivisionError] for every principal and
    every rate, in exact arithmetic and in double precision: at rate zero
    the straight-line division is by [months = 0], otherwise the annuity
    denominator is [1 - x ** 0 = 0]. *)
Theorem zero_term_raises :
  (forall p rate : Q,
     compute_monthly_schedule
       {| principal := p; annual_rate := rate; years := 0 |}
     = Raise ZeroDivisionError) /\
  (forall (libm_pow : float -> float -> float) (p rate : float),
     @compute_monthly_schedule float (binary64 libm_pow)
       {| principal := p; annual_rate := rate; years := 0 |}
     = Raise ZeroDivisionError).
Proof.
  split.
  - intros p rate. unfold compute_monthly_schedule, monthly_terms.
    cbn [principal annual_rate years].
    rewrite py_div_exact by (apply of_int_nonzero; lia). cbn [bind].
    rewrite py_div_exact by (apply of_int_nonzero; lia). cbn [bind].
    destruct (feqb _ (of_int 0)); [reflexivity |].
    unfold py_pow. change (- (0 * 12) <? 0)%Z with false.
    rewrite Bool.andb_false_r. reflexivity.
  - intros libm_pow p rate. unfold compute_monthly_schedule, monthly_terms.
    cbn [principal annual_rate years].
    unfold py_div at 1. rewrite binary64_100_nonzero. cbn [bind].
    unfold py_div at 1. rewrite binary64_12_nonzero. cbn [bind].
    destruct (feqb _ (of_int 0)); [reflexivity |].
    unfold py_pow. change (- (0 * 12) <? 0)%Z with false.
    rewrite Bool.andb_false_r. reflexivity.
Qed.

(** In exact arithmetic, a negative term (rate >= 0, any principal) runs no
    iteration: the schedule is the frame without rows or columns, and
    aggregating it, as [main] does, raises [KeyError]. *)
Lemma negative_term_pipeline (loan : LoanInputs Q) (view : string) :
  0 <= annual_rate loan -> (years loan < 0)%Z ->
  compute_monthly_schedule loan = Ok (pd_DataFrame []) /\
  (df <- compute_monthly_schedule loan ;; aggregate_schedule df view)
    = Raise (KeyError "year").
Proof.
  intros HR HY.
  assert (Hc : compute_monthly_schedule loan = Ok (pd_DataFrame [])).
  { unfold compute_monthly_schedule, monthly_terms.
    rewrite py_div_exact by (apply of_int_nonzero; lia). cbn [bind].
    rewrite py_div_exact by (apply of_int_nonzero; lia). cbn [bind].
    set (r := fquot (fquot (annual_rate loan) (of_int 100)) (of_int 12)).
    assert (Er : r == annual_rate loan / 100 / 12)
      by (unfold r; rewrite !exact_quot; reflexivity).
    assert (Hr0 : 0 <= r).
    { rewrite Er. unfold Qdiv.
      repeat apply Qmult_le_0_compat; try exact HR; apply Qinv_le_0_compat; lra. }
    destruct (feqb r (of_int 0)) eqn:Ez.
    - rewrite py_div_exact by (apply of_int_nonzero; lia). cbn [bind].
      rewrite run_loop_nonpos by lia. reflexivity.
    - assert (Hpos : 0 < r).
      { destruct (Qeq_dec r 0) as [E | N]; [| lra].
        apply Qeq_bool_iff in E. cbn [feqb exact of_int] in Ez.
        change (inject_Z 0) with 0 in Ez. congruence. }
      assert (Hbase : fadd (of_int 1) r == 1 + r)
        by (rewrite exact_add; reflexivity).
      rewrite py_pow_exact by (rewrite Hbase; lra). cbn [bind].
      assert (Hden : fsub (of_int 1) (fpow (fadd (of_int 1) r) (- (years loan * 12)))
                     == 1 - (1 + r) ^ (- (years loan * 12))).
      { rewrite exact_sub, exact_pow, Hbase. reflexivity. }
      assert (Hgt : 1 < (1 + r) ^ (- (years loan * 12)))
        by (apply Qpower_1_lt; [lra | lia]).
      rewrite py_div_exact by (rewrite Hden; lra). cbn [bind].
      rewrite run_loop_nonpos by lia. reflexivity. }
  split; [exact Hc |]. rewrite Hc. reflexivity.
Qed.

(** * The yearly table of a computed schedule *)

Local Open Scope Z_scope.

Lemma filter_none {A : Type} (p : A -> bool) (l : list A) :
  (forall a, In a l -> p a = false) -> filter p l = [].
Proof.
  induction l as [| x l IH]; intros Hp; [reflexivity |].
  cbn [filter]. rewrite (Hp x (or_introl eq_refl)).
  apply IH. intros a Ha. apply Hp. right. exact Ha.
Qed.

Lemma filter_all {A : Type} (p : A -> bool) (l : list A) :
  (forall a, In a l -> p a = true) -> filter p l = l.
Proof.
  induction l as [| x l IH]; intros Hp; [reflexivity |].
  cbn [filter]. rewrite (Hp x (or_introl eq_refl)). f_equal.
  apply IH. intros a Ha. apply Hp. right. exact Ha.
Qed.

Lemma filter_map_swap {A B : Type} (p : B -> bool) (f : A -> B) (l : list A) :
  filter p (map f l) = map f (filter (fun a => p (f a)) l).
Proof.
  induction l as [| x l IH]; [reflexivity |].
  cbn [map filter]. destruct (p (f x)); cbn [map]; rewrite IH; reflexivity.
Qed.

Lemma ceil_div_12_unique (m y : Z) :
  12 * (y - 1) < m <= 12 * y -> ceil_div m 12 = y.
Proof. intros Hy. pose proof (ceil_div_12 m). lia. Qed.

(** The months [12 (y - 1) + 1 .. 12 y] are those of year [y]. *)
Lemma year_block (Y y : nat) :
  (1 <= y <= Y)%nat ->
  filter (fun i => ceil_div (Z.of_nat i + 1) 12 =? Z.of_nat y) (seq 0 (12 * Y))
    = seq (12 * (y - 1)) 12.
Proof.
  intros Hy.
  replace (12 * Y)%nat with (12 * (y - 1) + (12 + 12 * (Y - y)))%nat by lia.
  rewrite seq_app, seq_app, !filter_app. cbn [Nat.add].
  rewrite filter_none, filter_all, filter_none.
  - rewrite app_nil_r. reflexivity.
  - intros i Hi. apply in_seq in Hi. apply Z.eqb_neq.
    pose proof (ceil_div_12 (Z.of_nat i + 1)). lia.
  - intros i Hi. apply in_seq in Hi. apply Z.eqb_eq.
    apply ceil_div_12_unique. lia.
  - intros i Hi. apply in_seq in Hi. apply Z.eqb_neq.
    pose proof (ceil_div_12 (Z.of_nat i + 1)). lia.
Qed.

Lemma seq_sorted (a len : nat) :
  StronglySorted Z.lt (map Z.of_nat (seq a len)).
Proof.
  revert a. induction len as [| len IH]; intros a; cbn [seq map].
  - constructor.
  - constructor; [apply IH |].
    apply Forall_forall. intros x Hx. apply in_map_iff in Hx.
    destruct Hx as (i & <- & Hi). apply in_seq in Hi. lia.
Qed.

Lemma sorted_same_members (l1 l2 : list Z) :
  StronglySorted Z.lt l1 -> StronglySorted Z.lt l2 ->
  (forall x, In x l1 <-> In x l2) -> l1 = l2.
Proof.
  intros H1. revert l2.
  induction H1 as [| h1 t1 Hs1 IH Hall1]; intros l2 H2 Hmem.
  - destruct l2 as [| h2 t2]; [reflexivity |].
    exfalso. apply (proj2 (Hmem h2)). left. reflexivity.
  - destruct H2 as [| h2 t2 Hs2 Hall2].
    + exfalso. apply (proj1 (Hmem h1)). left. reflexivity.
    + rewrite Forall_forall in Hall1, Hall2.
      assert (Hh : h1 = h2).
      { destruct (proj1 (Hmem h1) (or_introl eq_refl)) as [E | Hin1]; [congruence |].
        destruct (proj2 (Hmem h2) (or_introl eq_refl)) as [E | Hin2]; [congruence |].
        specialize (Hall1 _ Hin2). specialize (Hall2 _ Hin1). lia. }
      subst h2. f_equal. apply IH; [exact Hs2 |].
      intros x. split; intros Hx.
      * destruct (proj1 (Hmem x) (or_intror Hx)) as [E | Hin]; [| exact Hin].
        specialize (Hall1 _ Hx). lia.
      * destruct (proj2 (Hmem x) (or_intror Hx)) as [E | Hin]; [| exact Hin].
        specialize (Hall2 _ Hx). lia.
Qed.

Section Blocks.
Context {F : Type} `{PyFloat F}.
Variables r M P : F.

Local Abbreviation month_row i :=
  (row_of r M (snd (run_loop r M P (Z.of_nat i))) (Z.of_nat i + 1)).

(** The rows of [k] months, as the list of the monthly dictionaries. *)
Lemma rows_as_map (k : nat) :
  fst (run_loop r M P (Z.of_nat k)) = map (fun i => month_row i) (seq 0 k).
Proof.
  induction k as [| k IH].
  - rewrite run_loop_nonpos by (cbn; lia). reflexivity.
  - rewrite Nat2Z.inj_succ. unfold Z.succ.
    rewrite run_loop_step by lia. cbn [fst].
    rewrite seq_S, map_app, IH. reflexivity.
Qed.

(** In a schedule of [Y] whole years, the group of year [y] is its twelve
    months, in order. *)
Lemma group_of_year (Y y : nat) :
  (1 <= y <= Y)%nat ->
  group (fst (run_loop r M P (Z.of_nat (12 * Y)))) (Z.of_nat y)
    = map (fun i => month_row i) (seq (12 * (y - 1)) 12).
Proof.
  intros Hy. unfold group. rewrite rows_as_map, filter_map_swap.
  cbn [row_of year]. rewrite (year_block Y y Hy). reflexivity.
Qed.

Lemma group_keys_of_schedule (Y : nat) :
  group_keys (fst (run_loop r M P (Z.of_nat (12 * Y))))
    = map Z.of_nat (seq 1 Y).
Proof.
  apply sorted_same_members.
  - apply group_keys_sorted.
  - apply seq_sorted.
  - intros y. rewrite group_keys_In, rows_as_map, map_map.
    cbn [row_of year]. rewrite !in_map_iff. split.
    + intros (i & <- & Hi). apply in_seq in Hi.
      pose proof (ceil_div_12 (Z.of_nat i + 1)) as Hc.
      exists (Z.to_nat (ceil_div (Z.of_nat i + 1) 12)).
      split; [lia |]. apply in_seq. lia.
    + intros (k & <- & Hk). apply in_seq in Hk.
      exists (12 * k - 1)%nat. split.
      * apply ceil_div_12_unique. lia.
      * apply in_seq. lia.
Qed.
End Blocks.

Section YearlyRows.
Context {F : Type} `{PyFloat F}.
Variables r M P : F.
Variable Y : nat.

Local Abbreviation schedule_rows := (fst (run_loop r M P (Z.of_nat (12 * Y)))).
Local Abbreviation block y :=
  (map (fun i => row_of r M (snd (run_loop r M P (Z.of_nat i))) (Z.of_nat i + 1))
       (seq (12 * (y - 1)) 12)).

(** The frame returned for a schedule of [Y] whole years, in totals mode:
    one row per year [1 .. Y], each over its twelve months. *)
Lemma aggregate_whole_years_totals (view : string) :
  view <> "Mensuel"%string ->
  aggregate_schedule (Schedule schedule_rows) view =
    Ok (map (fun y =>
               {| annee := Z.of_nat y;
                  remboursement := col_sum payment (block y);
                  principal_col := col_sum principal_paid (block y);
                  interet := col_sum interest (block y) |})
            (seq 1 Y)).
Proof.
  intros Hv. rewrite aggregate_schedule_totals by exact Hv.
  rewrite group_keys_of_schedule, map_map. f_equal.
  apply map_ext_in. intros y Hy. apply in_seq in Hy.
  rewrite group_of_year by lia. reflexivity.
Qed.

(** The same in average mode: every sum is divided by twelve. *)
Lemma aggregate_whole_years_means :
  aggregate_schedule (Schedule schedule_rows) "Mensuel" =
    Ok (map (fun y =>
               {| annee := Z.of_nat y;
                  remboursement := fquot (col_sum payment (block y)) (of_int 12);
                  principal_col :=
                    fquot (col_sum principal_paid (block y)) (of_int 12);
                  interet := fquot (col_sum interest (block y)) (of_int 12) |})
            (seq 1 Y)).
Proof.
  rewrite aggregate_schedule_means.
  rewrite group_keys_of_schedule, map_map. f_equal.
  apply map_ext_in. intros y Hy. apply in_seq in Hy.
  rewrite group_of_year by lia. cbv zeta.
  rewrite length_map, length_seq. reflexivity.
Qed.

Lemma schedule_rows_nonempty :
  (1 <= Y)%nat -> pd_DataFrame schedule_rows = Schedule schedule_rows.
Proof.
  intros HY. pose proof (rows_length r M P (Z.of_nat (12 * Y))) as Hlen.
  destruct schedule_rows as [| row rows]; [cbn in Hlen; lia | reflexivity].
Qed.
End YearlyRows.

(** X6: in any arithmetic, a returned schedule aggregates, in either mode or
    under any other [view], to one row per year [1 .. years], in order. *)
Theorem yearly_table_years {F : Type} `{PyFloat F}
    (loan : LoanInputs F) (df : DataFrame F) (view : string) :
  compute_monthly_schedule loan = Ok df -> 1 <= years loan ->
  exists out,
    aggregate_schedule df view = Ok out /\
    map annee out = map Z.of_nat (seq 1 (Z.to_nat (years loan))).
Proof.
  unfold compute_monthly_schedule, monthly_terms.
  destruct (py_div (annual_rate loan) (of_int 100)) as [pct |]; [| discriminate].
  cbn [bind].
  destruct (py_div pct (of_int 12)) as [r |]; [| discriminate]. cbn [bind].
  destruct (if feqb r (of_int 0) then _ else _) as [M |]; [| discriminate].
  cbn [bind]. intros E HY. injection E as <-.
  replace (years loan * 12) with (Z.of_nat (12 * Z.to_nat (years loan))) by lia.
  rewrite schedule_rows_nonempty by lia.
  destruct (String.eqb_spec view "Mensuel") as [-> | Hv].
  - rewrite aggregate_whole_years_means. eexists. split; [reflexivity |].
    rewrite map_map. cbn [annee]. reflexivity.
  - rewrite aggregate_whole_years_totals by exact Hv.
    eexists. split; [reflexivity |].
    rewrite map_map. cbn [annee]. reflexivity.
Qed.

Lemma yearly_table_years_witness :
  exists df out,
    compute_monthly_schedule ex_zero_rate = Ok df /\
    aggregate_schedule df "Mensuel" = Ok out /\
    map annee out = map Z.of_nat (seq 1 (Z.to_nat (years ex_zero_rate))).
Proof.
  assert (E : {df | compute_monthly_schedule ex_zero_rate = Ok df})
    by (eexists; vm_compute; reflexivity).
  destruct E as [df E].
  destruct (yearly_table_years ex_zero_rate df "Mensuel" E) as (out & Ho & Ha).
  - cbn. lia.
  - exists df, out. repeat split; assumption.
Defined.

Local Open Scope Q_scope.

Lemma Qsum_const {A : Type} (c : Q) (l : list A) :
  Qsum (map (fun _ => c) l) == inject_Z (Z.of_nat (List.length l)) * c.
Proof.
  induction l as [| x l IH].
  - change (0 == 0 * c). lra.
  - cbn [map]. rewrite Qsum_cons, IH.
    cbn [List.length]. rewrite Nat2Z.inj_succ. unfold Z.succ.
    rewrite inject_Z_plus. change (inject_Z 1) with 1. lra.
Qed.

Lemma Qsum_le {A : Type} (f g : A -> Q) (l : list A) :
  (forall a, In a l -> f a <= g a) -> Qsum (map f l) <= Qsum (map g l).
Proof.
  induction l as [| x l IH]; intros Hfg.
  - apply Qle_refl.
  - cbn [map]. rewrite !Qsum_cons.
    apply Qplus_le_compat.
    + apply Hfg. left. reflexivity.
    + apply IH. intros a Ha. apply Hfg. right. exact Ha.
Qed.

Section ExactBlocks.
Variables r M P : Q.
Variable n : nat.
Hypothesis r_nonneg : 0 <= r.
Hypothesis M_nonneg : 0 <= M.
Hypothesis retires : P == M * annuity (1 + r) n.

Local Abbreviation bal k := (snd (run_loop r M P (Z.of_nat k))).
Local Abbreviation month_row i := (row_of r M (bal i) (Z.of_nat i + 1)).

(** The principal portions of consecutive months add up to the drop of
    the balance over those months. *)
Lemma block_principal (a len : nat) :
  (a + len <= n)%nat ->
  Qsum (map principal_paid (map (fun i => month_row i) (seq a len)))
    == bal a - bal (a + len).
Proof.
  revert a. induction len as [| len IH]; intros a Hle.
  - rewrite Nat.add_0_r. change (Qsum (map _ (map _ (seq a 0)))) with 0. lra.
  - cbn [seq map]. rewrite Qsum_cons, IH by lia.
    cbn [row_of principal_paid]. rewrite exact_sub, exact_mul.
    destruct (balance_closed r M P n r_nonneg M_nonneg retires (S a)) as [_ Hs];
      [lia |].
    specialize (Hs a eq_refl).
    replace (a + S len)%nat with (S a + len)%nat by lia. lra.
Qed.

Lemma block_payment (a len : nat) :
  Qsum (map payment (map (fun i => month_row i) (seq a len)))
    == inject_Z (Z.of_nat len) * M.
Proof.
  rewrite map_map. cbn [row_of payment].
  rewrite (Qsum_const M (seq a len)), length_seq. reflexivity.
Qed.

Lemma block_interest (a len : nat) :
  Qsum (map interest (map (fun i => month_row i) (seq a len)))
    == Qsum (map payment (map (fun i => month_row i) (seq a len)))
       - Qsum (map principal_paid (map (fun i => month_row i) (seq a len))).
Proof.
  induction (seq a len) as [| i l IH].
  - change (Qsum (map _ (map _ []))) with 0. lra.
  - cbn [map]. rewrite !Qsum_cons, IH.
    cbn [row_of payment principal_paid interest]. rewrite exact_sub. lra.
Qed.

Lemma balance_antitone (i j : nat) :
  (i <= j <= n)%nat -> bal j <= bal i.
Proof.
  intros [Hij Hj]. induction Hij as [| j Hij IH].
  - apply Qle_refl.
  - eapply Qle_trans; [| apply IH; lia].
    apply (balance_decreases r M P n r_nonneg M_nonneg retires). lia.
Qed.

(** Twelve months later the principal portions are no smaller. *)
Lemma block_principal_mono (a : nat) :
  (a + 24 <= n)%nat ->
  Qsum (map principal_paid (map (fun i => month_row i) (seq a 12)))
    <= Qsum (map principal_paid (map (fun i => month_row i) (seq (a + 12) 12))).
Proof.
  intros Hle.
  replace (seq (a + 12) 12) with (map (fun i => (i + 12)%nat) (seq a 12)).
  - rewrite !map_map. apply Qsum_le. intros i Hi. apply in_seq in Hi.
    cbn [row_of principal_paid]. rewrite !exact_sub, !exact_mul.
    pose proof (balance_antitone i (i + 12) ltac:(lia)) as Hb. nra.
  - apply nth_ext with (d := (0 + 12)%nat) (d' := O).
    + rewrite length_map, !length_seq. reflexivity.
    + intros k Hk. rewrite length_map, length_seq in Hk.
      rewrite (map_nth (fun i => (i + 12)%nat)), !seq_nth by lia. lia.
Qed.
End ExactBlocks.

Lemma yearly_table_setup (loan : LoanInputs Q) :
  valid loan ->
  exists r M Y,
    Z.of_nat Y = years loan /\ (1 <= Y)%nat /\ 0 <= r /\ 0 <= M /\
    principal loan == M * annuity (1 + r) (12 * Y) /\
    compute_monthly_schedule loan =
      Ok (Schedule (fst (run_loop r M (principal loan) (Z.of_nat (12 * Y))))) /\
    (forall k, balance_after loan k = Ok (snd (run_loop r M (principal loan) k))).
Proof.
  intros Hv.
  destruct (schedule_returns loan Hv) as (r & M & Hc & Hb & _ & Hr & HM & Hret & _).
  destruct Hv as (_ & _ & HY).
  exists r, M, (Z.to_nat (years loan)).
  replace (Z.to_nat (years loan * 12)) with (12 * Z.to_nat (years loan))%nat
    in Hret by lia.
  replace (years loan * 12)%Z with (Z.of_nat (12 * Z.to_nat (years loan)))
    in Hc by lia.
  rewrite schedule_rows_nonempty in Hc by lia.
  repeat split; try assumption; lia.
Qed.

Lemma totals_sum_exact (col : Row Q -> Q) (rows : list (Row Q)) :
  Qsum (map (fun y => col_sum col (group rows y)) (group_keys rows))
    == Qsum (map col rows).
Proof.
  etransitivity.
  - apply Qsum_map_ext. intros y _. apply col_sum_exact.
  - apply Qsum_groups.
    + apply sorted_NoDup, group_keys_sorted.
    + intros row Hin. apply group_keys_In, in_map. exact Hin.
Qed.

(** X7: for a loan of the domain, every yearly payment is twelve monthly
    payments in totals mode and one monthly payment in average mode, and
    every yearly total of principal or interest is twelve times the
    average: no year is partial. *)
Theorem yearly_payment_twelve_monthly (loan : LoanInputs Q) :
  valid loan ->
  exists df totals means,
    compute_monthly_schedule loan = Ok df /\
    aggregate_schedule df "Annuel" = Ok totals /\
    aggregate_schedule df "Mensuel" = Ok means /\
    (forall row t m,
       In row (records df) -> In t totals -> In m means ->
       remboursement t == 12 * payment row /\ remboursement m == payment row) /\
    Forall2 (fun t m =>
               annee t = annee m /\
               principal_col t == 12 * principal_col m /\
               interet t == 12 * interet m)
            totals means.
Proof.
  intros Hv.
  destruct (yearly_table_setup loan Hv) as (r & M & Y & _ & HY & Hr & HM & Hret & Hc & _).
  eexists _, _, _. split; [exact Hc |].
  rewrite aggregate_whole_years_totals by discriminate.
  rewrite aggregate_whole_years_means.
  split; [reflexivity |]. split; [reflexivity |]. split.
  - intros row t m Hrow Ht Hm. cbn [records] in Hrow.
    destruct (rows_In _ _ _ _ _ Hrow) as (i & _ & ->).
    apply in_map_iff in Ht. destruct Ht as (y & <- & _).
    apply in_map_iff in Hm. destruct Hm as (y' & <- & _).
    cbn [remboursement row_of payment].
    rewrite exact_quot, !col_sum_exact, !block_payment.
    cbn [of_int exact]. change (inject_Z (Z.of_nat 12)) with 12.
    change (inject_Z 12) with 12. split; [lra | field].
  - apply Forall2_map_same. intros y _.
    cbn [annee principal_col interet]. rewrite !exact_quot.
    cbn [of_int exact]. change (inject_Z 12) with 12.
    repeat split; field.
Qed.

Lemma yearly_payment_twelve_monthly_witness :
  exists df totals means,
    compute_monthly_schedule ex_loan = Ok df /\
    aggregate_schedule df "Annuel" = Ok totals /\
    aggregate_schedule df "Mensuel" = Ok means /\
    (forall row t m,
       In row (records df) -> In t totals -> In m means ->
       remboursement t == 12 * payment row /\ remboursement m == payment row) /\
    Forall2 (fun t m =>
               annee t = annee m /\
               principal_col t == 12 * principal_col m /\
               interet t == 12 * interet m)
            totals means.
Proof. exact (yearly_payment_twelve_monthly ex_loan ex_loan_valid). Defined.

(** X8: for a loan of the domain, in totals mode the principal of a year is
    the drop of the outstanding balance over that year, and its interest is
    the rest of the year's payments. *)
Theorem yearly_principal_is_balance_drop (loan : LoanInputs Q) :
  valid loan ->
  exists df totals,
    compute_monthly_schedule loan = Ok df /\
    aggregate_schedule df "Annuel" = Ok totals /\
    Forall (fun t =>
              exists b_start b_end,
                balance_after loan (12 * (annee t - 1)) = Ok b_start /\
                balance_after loan (12 * annee t) = Ok b_end /\
                principal_col t == b_start - b_end /\
                interet t == remboursement t - (b_start - b_end))
           totals.
Proof.
  intros Hv.
  destruct (yearly_table_setup loan Hv) as (r & M & Y & _ & HY & Hr & HM & Hret & Hc & Hb).
  eexists _, _. split; [exact Hc |].
  rewrite aggregate_whole_years_totals by discriminate.
  split; [reflexivity |].
  apply Forall_forall. intros t Ht.
  apply in_map_iff in Ht. destruct Ht as (y & <- & Hy). apply in_seq in Hy.
  cbn [annee remboursement principal_col interet].
  eexists _, _. split; [apply Hb |]. split; [apply Hb |].
  replace (12 * (Z.of_nat y - 1))%Z with (Z.of_nat (12 * (y - 1))) by lia.
  replace (12 * Z.of_nat y)%Z with (Z.of_nat (12 * (y - 1) + 12)) by lia.
  rewrite !col_sum_exact.
  rewrite (block_interest r M (principal loan)).
  rewrite (block_principal r M (principal loan) (12 * Y) Hr HM Hret) by lia.
  split; reflexivity.
Qed.

Lemma yearly_principal_is_balance_drop_witness :
  exists df totals,
    compute_monthly_schedule ex_loan = Ok df /\
    aggregate_schedule df "Annuel" = Ok totals /\
    Forall (fun t =>
              exists b_start b_end,
                balance_after ex_loan (12 * (annee t - 1)) = Ok b_start /\
                balance_after ex_loan (12 * annee t) = Ok b_end /\
                principal_col t == b_start - b_end /\
                interet t == remboursement t - (b_start - b_end))
           totals.
Proof. exact (yearly_principal_is_balance_drop ex_loan ex_loan_valid). Defined.

(** X9: for a loan of the domain, over the whole table in totals mode the
    yearly principal amounts add up to the loan's principal, and the yearly
    interest amounts are what the payments exceed it by. *)
Theorem yearly_table_repays_principal (loan : LoanInputs Q) :
  valid loan ->
  exists df totals,
    compute_monthly_schedule loan = Ok df /\
    aggregate_schedule df "Annuel" = Ok totals /\
    Qsum (map principal_col totals) == principal loan /\
    Qsum (map interet totals)
      == Qsum (map remboursement totals) - principal loan.
Proof.
  intros Hv.
  destruct (yearly_table_setup loan Hv) as (r & M & Y & _ & HY & Hr & HM & Hret & Hc & _).
  eexists _, _. split; [exact Hc |].
  rewrite aggregate_schedule_totals by discriminate.
  split; [reflexivity |].
  rewrite !map_map. cbn [remboursement principal_col interet].
  rewrite !totals_sum_exact.
  pose proof (principal_paid_sum r M (principal loan) (12 * Y) Hr HM Hret
                (12 * Y) (Nat.le_refl _)) as Hs.
  pose proof (balance_final r M (principal loan) (12 * Y) Hr HM Hret) as Hf.
  rewrite Hf in Hs.
  pose proof (block_interest r M (principal loan) 0 (12 * Y)) as Hi.
  rewrite <- rows_as_map in Hi.
  rewrite Hi, Hs. split; lra.
Qed.

Lemma yearly_table_repays_principal_witness :
  exists df totals,
    compute_monthly_schedule ex_loan = Ok df /\
    aggregate_schedule df "Annuel" = Ok totals /\
    Qsum (map principal_col totals) == principal ex_loan /\
    Qsum (map interet totals)
      == Qsum (map remboursement totals) - principal ex_loan.
Proof. exact (yearly_table_repays_principal ex_loan ex_loan_valid). Defined.

(** X10: for a loan of the domain, down the table in totals mode the interest
    of a year never exceeds that of the year before, and the principal is
    never below it. *)
Theorem yearly_interest_falls (loan : LoanInputs Q) :
  valid loan ->
  exists df totals,
    compute_monthly_schedule loan = Ok df /\
    aggregate_schedule df "Annuel" = Ok totals /\
    forall i d, (S i < List.length totals)%nat ->
      interet (nth (S i) totals d) <= interet (nth i totals d) /\
      principal_col (nth i totals d) <= principal_col (nth (S i) totals d).
Proof.
  intros Hv.
  destruct (yearly_table_setup loan Hv) as (r & M & Y & _ & HY & Hr & HM & Hret & Hc & _).
  eexists _, _. split; [exact Hc |].
  rewrite aggregate_whole_years_totals by discriminate.
  split; [reflexivity |].
  intros i d Hi. rewrite length_map, length_seq in Hi.
  set (f := fun y : nat => _).
  rewrite (nth_indep _ d (f O)) by (rewrite length_map, length_seq; lia).
  rewrite (nth_indep (map f (seq 1 Y)) d (f O))
    by (rewrite length_map, length_seq; lia).
  rewrite !map_nth, !seq_nth by lia.
  unfold f. cbn [principal_col interet].
  rewrite !col_sum_exact.
  rewrite !(block_interest r M (principal loan)), !block_payment.
  pose proof (block_principal_mono r M (principal loan) (12 * Y) Hr HM Hret
                (12 * (1 + i - 1))) as Hm.
  replace (12 * (1 + i - 1) + 12)%nat with (12 * (1 + S i - 1))%nat in Hm by lia.
  specialize (Hm ltac:(lia)).
  split; lra.
Qed.

Lemma yearly_interest_falls_witness :
  exists df totals,
    compute_monthly_schedule ex_loan = Ok df /\
    aggregate_schedule df "Annuel" = Ok totals /\
    forall i d, (S i < List.length totals)%nat ->
      interet (nth (S i) totals d) <= interet (nth i totals d) /\
      principal_col (nth i totals d) <= principal_col (nth (S i) totals d).
Proof. exact (yearly_interest_falls ex_loan ex_loan_valid). Defined.

(** * main *)

Lemma truthy_exact_pos (x : Q) : 0 < x -> truthy x = true.
Proof.
  intros Hx. unfold truthy. rewrite exact_eqb_false; [reflexivity |].
  cbn [of_int exact]. change (inject_Z 0) with 0. lra.
Qed.

Lemma truthy_exact_zero (x : Q) : x == 0 -> truthy x = false.
Proof.
  intros Hx. unfold truthy.
  assert (E : feqb x (of_int 0) = true) by (apply Qeq_bool_iff; exact Hx).
  rewrite E. reflexivity.
Qed.

Lemma headline_Mensuel_pos (e m : Q) :
  0 < e ->
  headline e m "Mensuel" =
    Ok {| label := MensualiteMoyenne; value := m;
          delta := Some (fquot m (fquot e (of_int 12))) |}.
Proof.
  intros He. unfold headline. cbn [String.eqb Ascii.eqb Bool.eqb].
  rewrite (truthy_exact_pos e He).
  rewrite py_div_exact by (apply of_int_nonzero; lia). cbn [bind].
  assert (Hb : 0 < fquot e (of_int 12)).
  { rewrite exact_quot. cbn [of_int exact]. change (inject_Z 12) with 12.
    apply Qlt_shift_div_l; lra. }
  rewrite (truthy_exact_pos _ Hb).
  rewrite py_div_exact by lra. reflexivity.
Qed.

Lemma headline_totals_pos (e m : Q) (view : string) :
  view <> "Mensuel"%string -> 0 < e ->
  headline e m view =
    Ok {| label := RemboursementAnnuel; value := fmul m (of_int 12);
          delta := Some (fquot (fmul m (of_int 12)) e) |}.
Proof.
  intros Hv He. unfold headline.
  destruct (String.eqb_spec view "Mensuel") as [E | _]; [contradiction |].
  rewrite (truthy_exact_pos e He). rewrite (truthy_exact_pos e He).
  rewrite py_div_exact by lra. reflexivity.
Qed.

Lemma headline_zero (e m : Q) (view : string) :
  e == 0 ->
  headline e m view =
    Ok (if String.eqb view "Mensuel" then
          {| label := MensualiteMoyenne; value := m; delta := None |}
        else
          {| label := RemboursementAnnuel; value := fmul m (of_int 12);
             delta := None |}).
Proof.
  intros He. unfold headline.
  assert (H0 : truthy (@of_int Q exact 0) = false)
    by (apply truthy_exact_zero; reflexivity).
  destruct (String.eqb view "Mensuel");
    rewrite (truthy_exact_zero e He); cbn [bind]; rewrite H0; reflexivity.
Qed.

(** On the domain, [main] runs its steps on the schedule of [Y] whole
    years, whose first payment is the monthly payment. *)
Lemma main_steps (e s rate : Q) (ys : Z) (p : Q) :
  valid {| principal := p; annual_rate := rate; years := ys |} ->
  exists r M Y,
    Z.of_nat Y = ys /\ (1 <= Y)%nat /\ 0 <= r /\ 0 <= M /\
    p == M * annuity (1 + r) (12 * Y) /\
    forall view,
    main e s rate ys p view =
      (multiple <- valuation_multiple e s ;;
       metric <- headline e M view ;;
       yearly_table <-
         aggregate_schedule
           (Schedule (fst (run_loop r M p (Z.of_nat (12 * Y))))) view ;;
       cashflow_value <- (if String.eqb view "Annuel" then Ok e
                          else py_div e (of_int 12)) ;;
       Ok {| multiple := multiple;
             metric := metric;
             yearly_table :=
               map (fun o => {| t_annee := annee o;
                                cashflow := cashflow_value;
                                t_remboursement := remboursement o;
                                t_principal := principal_col o;
                                t_interet := interet o |})
                   yearly_table |}).
Proof.
  intros Hv.
  destruct (yearly_table_setup _ Hv) as (r & M & Y & HY & HY1 & Hr & HM & Hret & Hc & _).
  cbn [principal years] in *.
  exists r, M, Y. repeat split; try assumption.
  intros view.
  unfold main. destruct (valuation_multiple e s) as [mu |]; [| reflexivity].
  cbn [bind]. rewrite Hc. cbn [bind records].
  rewrite rows_as_map.
  replace (12 * Y)%nat with (S (12 * Y - 1)) by lia.
  cbn [seq map row_of payment]. reflexivity.
Qed.

Lemma cashflow_Mensuel (e : Q) :
  (if String.eqb "Mensuel" "Annuel" then Ok e else py_div e (of_int 12))
    = Ok (fquot e (of_int 12)).
Proof.
  cbn [String.eqb Ascii.eqb Bool.eqb].
  apply py_div_exact, of_int_nonzero. lia.
Qed.

(** X13: on the page's domain (EBITDA >= 0 and a loan of the domain) both
    display modes show the same multiple, the annual headline is twelve
    times the monthly one, and the payment-to-cashflow ratio shown as delta
    is the same in both modes: absent at zero EBITDA, else
    [yearly payment / EBITDA]. *)
Theorem main_ratio_same_in_both_views (e s rate : Q) (ys : Z) (p : Q) :
  0 <= e ->
  valid {| principal := p; annual_rate := rate; years := ys |} ->
  exists pa pm,
    main e s rate ys p "Annuel" = Ok pa /\
    main e s rate ys p "Mensuel" = Ok pm /\
    multiple pa = multiple pm /\
    value (metric pa) == 12 * value (metric pm) /\
    (e == 0 -> delta (metric pa) = None /\ delta (metric pm) = None) /\
    (0 < e ->
     exists da dm,
       delta (metric pa) = Some da /\ delta (metric pm) = Some dm /\
       da == dm /\ da * e == value (metric pa)).
Proof.
  intros He Hv.
  destruct (main_steps e s rate ys p Hv) as (r & M & Y & _ & _ & _ & _ & _ & Hm).
  rewrite !Hm.
  rewrite aggregate_whole_years_totals by discriminate.
  rewrite aggregate_whole_years_means, cashflow_Mensuel.
  change (String.eqb "Annuel" "Annuel") with true.
  destruct (Qlt_le_dec 0 e) as [Hpos | Hle].
  - rewrite (proj1 (valuation_multiple_exact e s) Hpos).
    rewrite headline_Mensuel_pos by exact Hpos.
    rewrite headline_totals_pos by (discriminate || exact Hpos).
    cbn [bind]. eexists _, _. split; [reflexivity |]. split; [reflexivity |].
    cbn [multiple metric value delta].
    split; [reflexivity |]. split; [rewrite exact_mul; cbn [of_int exact]; change (inject_Z 12) with 12; lra |].
    split; [intros E; lra |]. intros _.
    eexists _, _. split; [reflexivity |]. split; [reflexivity |].
    rewrite !exact_quot, !exact_mul. cbn [of_int exact].
    change (inject_Z 12) with 12. split; field; lra.
  - assert (E0 : e == 0) by lra.
    rewrite (proj2 (valuation_multiple_exact e s) Hle).
    rewrite !headline_zero by exact E0.
    cbn [bind String.eqb Ascii.eqb Bool.eqb].
    eexists _, _. split; [reflexivity |]. split; [reflexivity |].
    cbn [multiple metric value delta].
    split; [reflexivity |]. split; [rewrite exact_mul; cbn [of_int exact]; change (inject_Z 12) with 12; lra |].
    split; [intros _; split; reflexivity |]. intros Hpos. lra.
Qed.

Lemma main_ratio_same_in_both_views_witness :
  exists pa pm,
    main 300000 1000000 (35 # 10) 7 700000 "Annuel" = Ok pa /\
    main 300000 1000000 (35 # 10) 7 700000 "Mensuel" = Ok pm /\
    multiple pa = multiple pm /\
    value (metric pa) == 12 * value (metric pm) /\
    (300000 == 0 -> delta (metric pa) = None /\ delta (metric pm) = None) /\
    (0 < 300000 ->
     exists da dm,
       delta (metric pa) = Some da /\ delta (metric pm) = Some dm /\
       da == dm /\ da * 300000 == value (metric pa)).
Proof.
  apply (main_ratio_same_in_both_views 300000 1000000 (35 # 10) 7 700000).
  - unfold Qle; cbn; lia.
  - exact ex_loan_valid.
Defined.

Lemma some_inj {A : Type} (a b : A) : Some a = Some b -> a = b.
Proof. intros E. congruence. Qed.

(** Shows the constant [12] as such. *)
Ltac twelve :=
  cbn [of_int exact];
  change (inject_Z (Z.of_nat 12)) with 12;
  change (inject_Z 12) with 12.

Lemma main_table_rows (e s rate : Q) (ys : Z) (p : Q)
    (view : string) :
  view = "Annuel"%string \/ view = "Mensuel"%string ->
  0 <= e ->
  valid {| principal := p; annual_rate := rate; years := ys |} ->
  exists page,
    main e s rate ys p view = Ok page /\
    map t_annee (yearly_table page) = map Z.of_nat (seq 1 (Z.to_nat ys)) /\
    (0 < e -> exists d, delta (metric page) = Some d) /\
    Forall (fun row =>
              t_remboursement row == value (metric page) /\
              forall d, delta (metric page) = Some d ->
                        d * cashflow row == t_remboursement row)
           (yearly_table page).
Proof.
  intros Hview He Hv.
  destruct (main_steps e s rate ys p Hv) as (r & M & Y & HY & _ & _ & _ & _ & Hm).
  rewrite Hm. replace (Z.to_nat ys) with Y by lia.
  assert (Hmult : exists mu, valuation_multiple e s = Ok mu).
  { destruct (Qlt_le_dec 0 e) as [Hpos | Hle].
    - rewrite (proj1 (valuation_multiple_exact e s) Hpos). eexists. reflexivity.
    - rewrite (proj2 (valuation_multiple_exact e s) Hle). eexists. reflexivity. }
  destruct Hmult as (mu & ->). cbn [bind].
  destruct Hview as [-> | ->].
  - rewrite aggregate_whole_years_totals by discriminate.
    change (String.eqb "Annuel" "Annuel") with true.
    destruct (Qlt_le_dec 0 e) as [Hpos | Hle].
    + rewrite headline_totals_pos by (discriminate || exact Hpos). cbn [bind].
      eexists. split; [reflexivity |].
      cbn [yearly_table metric value delta]. rewrite !map_map. cbn [t_annee annee].
      split; [reflexivity |]. split; [intros _; eexists; reflexivity |].
      apply Forall_forall. intros row Hrow. apply in_map_iff in Hrow.
      destruct Hrow as (y & <- & _).
      cbn [t_remboursement cashflow remboursement]. split.
      * rewrite col_sum_exact, block_payment, exact_mul. twelve. lra.
      * intros d Hd. apply some_inj in Hd. subst d.
        rewrite col_sum_exact, block_payment, exact_quot, exact_mul. twelve.
        field. lra.
    + rewrite headline_zero by lra. cbn [bind String.eqb Ascii.eqb Bool.eqb].
      eexists. split; [reflexivity |].
      cbn [yearly_table metric value delta]. rewrite !map_map. cbn [t_annee annee].
      split; [reflexivity |]. split; [intros Hpos; lra |].
      apply Forall_forall. intros row Hrow. apply in_map_iff in Hrow.
      destruct Hrow as (y & <- & _).
      cbn [t_remboursement cashflow remboursement]. split; [| discriminate].
      rewrite col_sum_exact, block_payment, exact_mul. twelve. lra.
  - rewrite aggregate_whole_years_means, cashflow_Mensuel.
    destruct (Qlt_le_dec 0 e) as [Hpos | Hle].
    + rewrite headline_Mensuel_pos by exact Hpos. cbn [bind].
      eexists. split; [reflexivity |].
      cbn [yearly_table metric value delta]. rewrite !map_map. cbn [t_annee annee].
      split; [reflexivity |]. split; [intros _; eexists; reflexivity |].
      apply Forall_forall. intros row Hrow. apply in_map_iff in Hrow.
      destruct Hrow as (y & <- & _).
      cbn [t_remboursement cashflow remboursement]. split.
      * rewrite exact_quot, col_sum_exact, block_payment. twelve. field.
      * intros d Hd. apply some_inj in Hd. subst d.
        rewrite !exact_quot, col_sum_exact, block_payment. twelve. field. lra.
    + rewrite headline_zero by lra. cbn [bind String.eqb Ascii.eqb Bool.eqb].
      eexists. split; [reflexivity |].
      cbn [yearly_table metric value delta]. rewrite !map_map. cbn [t_annee annee].
      split; [reflexivity |]. split; [intros Hpos; lra |].
      apply Forall_forall. intros row Hrow. apply in_map_iff in Hrow.
      destruct Hrow as (y & <- & _).
      cbn [t_remboursement cashflow remboursement]. split; [| discriminate].
      rewrite exact_quot, col_sum_exact, block_payment. twelve. field.
Qed.

(** X14: on the page's domain, in each of the two display modes the table has
    one row per year [1 .. years]; the payment of every row is the headline
    value, and where a delta is shown it is that row's payment divided by
    its cashflow. *)
Theorem main_table_matches_headline (e s rate : Q) (ys : Z) (p : Q)
    (view : string) :
  view = "Annuel"%string \/ view = "Mensuel"%string ->
  0 <= e ->
  valid {| principal := p; annual_rate := rate; years := ys |} ->
  exists page,
    main e s rate ys p view = Ok page /\
    map t_annee (yearly_table page) = map Z.of_nat (seq 1 (Z.to_nat ys)) /\
    (0 < e -> exists d, delta (metric page) = Some d) /\
    Forall (fun row =>
              t_remboursement row == value (metric page) /\
              forall d, delta (metric page) = Some d ->
                        d * cashflow row == t_remboursement row)
           (yearly_table page).
Proof. apply main_table_rows. Qed.

Lemma main_table_matches_headline_witness :
  exists page,
    main 300000 1000000 (35 # 10) 7 700000 "Mensuel" = Ok page /\
    map t_annee (yearly_table page) = map Z.of_nat (seq 1 (Z.to_nat 7)) /\
    (0 < 300000 -> exists d, delta (metric page) = Some d) /\
    Forall (fun row =>
              t_remboursement row == value (metric page) /\
              forall d, delta (metric page) = Some d ->
                        d * cashflow row == t_remboursement row)
           (yearly_table page).
Proof.
  apply (main_table_matches_headline 300000 1000000 (35 # 10) 7 700000 "Mensuel").
  - right. reflexivity.
  - unfold Qle; cbn; lia.
  - exact ex_loan_valid.
Defined.

(** X15: A [view] that is neither "Annuel" nor "Mensuel" mixes periods: the
    headline and the table's amounts are annual, but the cashflow column is
    the monthly [EBITDA / 12], so a row's payment is twelve times what the
    delta makes of its cashflow. *)
Theorem main_unrecognised_view (e s rate : Q) (ys : Z) (p : Q) (view : string) :
  view <> "Annuel"%string -> view <> "Mensuel"%string ->
  0 < e ->
  valid {| principal := p; annual_rate := rate; years := ys |} ->
  exists page d,
    main e s rate ys p view = Ok page /\
    label (metric page) = RemboursementAnnuel /\
    delta (metric page) = Some d /\
    d * e == value (metric page) /\
    Forall (fun row =>
              t_remboursement row == value (metric page) /\
              cashflow row == e / 12 /\
              12 * (d * cashflow row) == t_remboursement row)
           (yearly_table page).
Proof.
  intros HvA HvM Hpos Hv.
  destruct (main_steps e s rate ys p Hv) as (r & M & Y & HY & _ & _ & _ & _ & Hm).
  rewrite Hm.
  rewrite (proj1 (valuation_multiple_exact e s) Hpos). cbn [bind].
  rewrite headline_totals_pos by assumption. cbn [bind].
  rewrite aggregate_whole_years_totals by exact HvM. cbn [bind].
  destruct (String.eqb_spec view "Annuel") as [E | _]; [contradiction |].
  rewrite py_div_exact by (apply of_int_nonzero; lia). cbn [bind].
  eexists _, _. split; [reflexivity |].
  cbn [yearly_table metric label value delta].
  split; [reflexivity |]. split; [reflexivity |].
  split.
  - rewrite exact_quot, exact_mul. field. lra.
  - apply Forall_forall. intros row Hrow. apply in_map_iff in Hrow.
    destruct Hrow as (o & <- & Ho). apply in_map_iff in Ho.
    destruct Ho as (y & <- & _).
    cbn [t_remboursement cashflow remboursement].
    rewrite col_sum_exact, block_payment, !exact_quot, exact_mul.
    cbn [of_int exact]. change (inject_Z (Z.of_nat 12)) with 12.
    change (inject_Z 12) with 12. repeat split; try field; lra.
Qed.

Lemma main_unrecognised_view_witness :
  exists page d,
    main 300000 1000000 (35 # 10) 7 700000 "Totals" = Ok page /\
    label (metric page) = RemboursementAnnuel /\
    delta (metric page) = Some d /\
    d * 300000 == value (metric page) /\
    Forall (fun row =>
              t_remboursement row == value (metric page) /\
              cashflow row == 300000 / 12 /\
              12 * (d * cashflow row) == t_remboursement row)
           (yearly_table page).
Proof.
  apply (main_unrecognised_view 300000 1000000 (35 # 10) 7 700000 "Totals").
  - discriminate.
  - discriminate.
  - reflexivity.
  - exact ex_loan_valid.
Defined.

(** * aggregate_schedule does not depend on the order of the rows *)

Lemma Permutation_filter {A : Type} (p : A -> bool) (l l' : list A) :
  Permutation l l' -> Permutation (filter p l) (filter p l').
Proof.
  induction 1 as [| x l l' Hp IH | x y l | l l' l'' H1 IH1 H2 IH2].
  - constructor.
  - cbn [filter]. destruct (p x); [constructor |]; exact IH.
  - cbn [filter]. destruct (p x), (p y); try apply Permutation_refl.
    constructor.
  - eapply Permutation_trans; eassumption.
Qed.

Lemma Qsum_Permutation (l l' : list Q) :
  Permutation l l' -> Qsum l == Qsum l'.
Proof.
  induction 1 as [| x l l' Hp IH | x y l | l l' l'' H1 IH1 H2 IH2].
  - reflexivity.
  - rewrite !Qsum_cons, IH. reflexivity.
  - rewrite !Qsum_cons. lra.
  - rewrite IH1. exact IH2.
Qed.

Lemma col_sum_Permutation (col : Row Q -> Q) (l l' : list (Row Q)) :
  Permutation l l' -> col_sum col l == col_sum col l'.
Proof.
  intros Hp. rewrite !col_sum_exact.
  apply Qsum_Permutation, Permutation_map. exact Hp.
Qed.

Lemma group_keys_Permutation {F : Type} `{PyFloat F} (l l' : list (Row F)) :
  Permutation l l' -> group_keys l = group_keys l'.
Proof.
  intros Hp. apply sorted_same_members; try apply group_keys_sorted.
  intros y. rewrite !group_keys_In.
  split; apply Permutation_in; [| apply Permutation_sym];
    apply Permutation_map; exact Hp.
Qed.

(** X11: reordering the rows of a frame changes nothing in the result, in
    either mode: the same years in the same order, with equal amounts. *)
Theorem aggregate_order_independent (rows rows' : list (Row Q)) (view : string) :
  Permutation rows rows' ->
  exists out out',
    aggregate_schedule (Schedule rows) view = Ok out /\
    aggregate_schedule (Schedule rows') view = Ok out' /\
    Forall2 (fun o o' =>
               annee o = annee o' /\
               remboursement o == remboursement o' /\
               principal_col o == principal_col o' /\
               interet o == interet o')
            out out'.
Proof.
  intros Hp.
  assert (Hg : forall y, Permutation (group rows y) (group rows' y))
    by (intros y; apply Permutation_filter; exact Hp).
  destruct (String.eqb_spec view "Mensuel") as [-> | Hv].
  - rewrite !aggregate_schedule_means.
    rewrite <- (group_keys_Permutation rows rows' Hp).
    eexists _, _. split; [reflexivity |]. split; [reflexivity |].
    apply Forall2_map_same. intros y _.
    cbn [annee remboursement principal_col interet].
    rewrite <- (Permutation_length (Hg y)).
    rewrite !exact_quot.
    rewrite !(col_sum_Permutation _ _ _ (Hg y)).
    repeat split; reflexivity.
  - rewrite !aggregate_schedule_totals by exact Hv.
    rewrite <- (group_keys_Permutation rows rows' Hp).
    eexists _, _. split; [reflexivity |]. split; [reflexivity |].
    apply Forall2_map_same. intros y _.
    cbn [annee remboursement principal_col interet].
    repeat split; try reflexivity; apply col_sum_Permutation, Hg.
Qed.

Lemma aggregate_order_independent_witness :
  exists out out',
    aggregate_schedule (Schedule ex_rows) "Mensuel" = Ok out /\
    aggregate_schedule (Schedule (rev ex_rows)) "Mensuel" = Ok out' /\
    Forall2 (fun o o' =>
               annee o = annee o' /\
               remboursement o == remboursement o' /\
               principal_col o == principal_col o' /\
               interet o == interet o')
            out out'.
Proof.
  apply (aggregate_order_independent ex_rows (rev ex_rows) "Mensuel").
  apply Permutation_rev.
Defined.

(** * The valuation multiple *)

(** X12: the multiple is shown exactly when the EBITDA is positive; it never
    raises, and times the EBITDA it gives the sale price back. *)
Theorem multiple_shown_iff_positive (ebitda sell_price : Q) :
  exists shown,
    valuation_multiple ebitda sell_price = Ok shown /\
    (0 < ebitda ->
     exists m, shown = Some m /\ m * ebitda == sell_price) /\
    (ebitda <= 0 -> shown = None).
Proof.
  destruct (Qlt_le_dec 0 ebitda) as [Hpos | Hle].
  - rewrite (proj1 (valuation_multiple_exact ebitda sell_price) Hpos).
    eexists. split; [reflexivity |]. split.
    + intros _. eexists. split; [reflexivity |].
      rewrite exact_quot. field. lra.
    + intros Hle. lra.
  - rewrite (proj2 (valuation_multiple_exact ebitda sell_price) Hle).
    eexists. split; [reflexivity |]. split; [intros Hpos; lra | reflexivity].
Qed.

(** * format_currency *)

Lemma round_half_even_near (y : Q) :
  - (1 # 2) <= inject_Z (round_half_even y) - y <= 1 # 2.
Proof.
  unfold round_half_even.
  pose proof (Qfloor_le y) as Hl. pose proof (Qlt_floor y) as Hu.
  rewrite inject_Z_plus in Hu. change (inject_Z 1) with 1 in Hu.
  destruct (Qcompare_spec (y - inject_Z (Qfloor y)) (1 # 2)) as [E | L | G].
  - destruct (Z.even (Qfloor y)).
    + lra.
    + rewrite inject_Z_plus. change (inject_Z 1) with 1. lra.
  - lra.
  - rewrite inject_Z_plus. change (inject_Z 1) with 1. lra.
Qed.

Lemma round_half_even_comp (y y' : Q) :
  y == y' -> round_half_even y = round_half_even y'.
Proof.
  intros E. unfold round_half_even.
  rewrite (Qfloor_comp _ _ E).
  assert (E' : y - inject_Z (Qfloor y') == y' - inject_Z (Qfloor y'))
    by (rewrite E; reflexivity).
  rewrite (Qcompare_comp _ _ E' (1 # 2) (1 # 2) (Qeq_refl _)). reflexivity.
Qed.

Lemma round_half_even_mono (y y' : Q) :
  y <= y' -> (round_half_even y <= round_half_even y')%Z.
Proof.
  intros Hle.
  pose proof (round_half_even_near y) as [_ H1].
  pose proof (round_half_even_near y') as [H2 _].
  destruct (Z.le_gt_cases (round_half_even y) (round_half_even y')) as [H | H];
    [exact H |].
  exfalso.
  assert (Hz : (round_half_even y' + 1 <= round_half_even y)%Z) by lia.
  rewrite Zle_Qle, inject_Z_plus in Hz.
  change (inject_Z 1) with 1 in Hz.
  assert (E : y == y') by lra.
  rewrite (round_half_even_comp y y' E) in H. lia.
Qed.

Lemma round_half_even_nonneg (y : Q) : 0 <= y -> (0 <= round_half_even y)%Z.
Proof.
  intros Hy.
  assert (E : round_half_even 0 = 0%Z) by reflexivity.
  rewrite <- E. apply round_half_even_mono. exact Hy.
Qed.

Lemma cents_of_value (x : Q) :
  inject_Z (Z.of_N (cents_of x)) = inject_Z (round_half_even (Qabs x * 100)).
Proof.
  unfold cents_of. rewrite Z2N.id; [reflexivity |].
  apply round_half_even_nonneg.
  apply Qmult_le_0_compat; [apply Qabs_nonneg | lra].
Qed.

(** The amount shown is a whole number of cents within half a cent. *)
Lemma shown_amount_near (x : Q) : Qabs (shown_amount x - x) <= 1 # 200.
Proof.
  unfold shown_amount. rewrite cents_of_value.
  pose proof (round_half_even_near (Qabs x * 100)) as [H1 H2].
  set (c := inject_Z (round_half_even (Qabs x * 100))) in *.
  destruct (Qle_bool 0 x) eqn:E.
  - apply Qle_bool_iff in E. rewrite (Qabs_pos x E) in H1, H2.
    assert (Hd : c / 100 == c * (1 # 100)) by (field).
    apply Qabs_Qle_condition. rewrite Hd. split; lra.
  - assert (Hx : x < 0).
    { destruct (Qlt_le_dec x 0) as [H | H]; [exact H |].
      apply Qle_bool_iff in H. congruence. }
    rewrite (Qabs_neg x) in H1, H2 by lra.
    assert (Hd : c / 100 == c * (1 # 100)) by (field).
    apply Qabs_Qle_condition. rewrite Hd. split; lra.
Qed.

Local Open Scope string_scope.

Lemma digits_lack (c : ascii) (d : Decimal.uint) :
  c = ","%char \/ c = "."%char \/ c = "-"%char ->
  lacks c (NilEmpty.string_of_uint d) = true.
Proof.
  intros [-> | [-> | ->]]; induction d; cbn; auto.
Qed.

Lemma group_thousands_lacks (c : ascii) (s : string) :
  c <> ","%char -> lacks c s = true -> lacks c (group_thousands s) = true.
Proof.
  intros Hc. induction s as [| a t IH]; [reflexivity |].
  cbn [lacks group_thousands]. intros Hl.
  apply Bool.andb_true_iff in Hl. destruct Hl as [Ha Ht].
  rewrite Ha. cbn [andb].
  destruct ((0 <? String.length t)%nat && (String.length t mod 3 =? 0)%nat).
  - cbn [lacks]. rewrite (IH Ht).
    destruct (Ascii.eqb_spec "," c) as [E | _]; [congruence | reflexivity].
  - exact (IH Ht).
Qed.

Lemma remove_commas_group (s : string) :
  lacks "," s = true -> remove_commas (group_thousands s) = s.
Proof.
  induction s as [| a t IH]; [reflexivity |].
  cbn [lacks group_thousands remove_commas]. intros Hl.
  apply Bool.andb_true_iff in Hl. destruct Hl as [Ha Ht].
  apply Bool.negb_true_iff in Ha. rewrite Ha.
  destruct ((0 <? String.length t)%nat && (String.length t mod 3 =? 0)%nat).
  - cbn [remove_commas]. rewrite Ascii.eqb_refl, (IH Ht). reflexivity.
  - rewrite (IH Ht). reflexivity.
Qed.

Lemma split_dot_app (a b : string) :
  lacks "." a = true -> split_dot (a ++ String "." b) = Some (a, b).
Proof.
  induction a as [| c t IH]; cbn [lacks append split_dot].
  - intros _. rewrite Ascii.eqb_refl. reflexivity.
  - intros Hl. apply Bool.andb_true_iff in Hl. destruct Hl as [Hc Ht].
    apply Bool.negb_true_iff in Hc. rewrite Hc, (IH Ht). reflexivity.
Qed.

Lemma number_of_digits (n : N) : number_of (digits n) = Some n.
Proof.
  unfold number_of, digits. rewrite NilEmpty.usu. cbn [option_map].
  rewrite DecimalN.Unsigned.of_to. reflexivity.
Qed.

Lemma two_digits_read (f : N) :
  (f < 100)%N ->
  String.length (two_digits f) = 2%nat /\ number_of (two_digits f) = Some f.
Proof.
  intros Hf.
  assert (Hall : forallb
                   (fun k => (String.length (two_digits (N.of_nat k)) =? 2)%nat
                             && match number_of (two_digits (N.of_nat k)) with
                                | Some v => N.eqb v (N.of_nat k)
                                | None => false
                                end)
                   (seq 0 100) = true) by (vm_compute; reflexivity).
  rewrite forallb_forall in Hall.
  specialize (Hall (N.to_nat f)). rewrite N2Nat.id in Hall.
  assert (Hin : In (N.to_nat f) (seq 0 100)) by (apply in_seq; lia).
  specialize (Hall Hin). apply Bool.andb_true_iff in Hall.
  destruct Hall as [Hlen Hnum]. apply Nat.eqb_eq in Hlen.
  split; [exact Hlen |].
  destruct (number_of (two_digits f)) as [v |]; [| discriminate].
  apply N.eqb_eq in Hnum. congruence.
Qed.

Lemma not_minus_first (s t : string) :
  lacks "-" s = true ->
  match group_thousands s ++ String "." t with
  | EmptyString => False
  | String c _ => Ascii.eqb c "-" = false
  end.
Proof.
  destruct s as [| a s']; cbn [group_thousands append lacks].
  - intros _. reflexivity.
  - intros Hl. apply Bool.andb_true_iff in Hl. destruct Hl as [Ha _].
    apply Bool.negb_true_iff in Ha. exact Ha.
Qed.

(** Reading a formatted amount back gives the amount shown. *)
Lemma parse_format_amount (x : Q) :
  parse_amount (format_amount x) = Some (shown_amount x).
Proof.
  unfold format_amount, parse_amount, shown_amount.
  rewrite Ascii.eqb_refl. cbn [negb].
  set (c := cents_of x).
  assert (Hm : (c mod 100 < 100)%N) by (apply N.mod_lt; discriminate).
  destruct (two_digits_read _ Hm) as [Hlen Hnum].
  assert (Hd : forall ch, ch = ","%char \/ ch = "."%char \/ ch = "-"%char ->
                          lacks ch (digits (c / 100)) = true)
    by (intros ch Hch; apply digits_lack; exact Hch).
  assert (Hbody :
    split_dot (group_thousands (digits (c / 100)) ++ String "." (two_digits (c mod 100)))
    = Some (group_thousands (digits (c / 100)), two_digits (c mod 100))).
  { apply split_dot_app, group_thousands_lacks; [discriminate |].
    apply Hd. auto. }
  assert (Hval : (c / 100 * 100 + c mod 100 = c)%N).
  { rewrite N.mul_comm. symmetry. apply N.div_mod. discriminate. }
  destruct (Qle_bool 0 x).
  - cbn [append].
    pose proof (not_minus_first (digits (c / 100)) (two_digits (c mod 100))
                  (Hd _ ltac:(auto))) as Hfirst.
    destruct (group_thousands (digits (c / 100)) ++ String "." (two_digits (c mod 100)))
      as [| ch rest] eqn:Ebody; [contradiction |].
    rewrite Hfirst.
    rewrite Hbody, remove_commas_group by (apply Hd; auto).
    rewrite number_of_digits, Hnum, Hlen. cbn [Nat.eqb].
    rewrite Hval. reflexivity.
  - cbn [append]. rewrite Ascii.eqb_refl.
    rewrite Hbody, remove_commas_group by (apply Hd; auto).
    rewrite number_of_digits, Hnum, Hlen. cbn [Nat.eqb].
    rewrite Hval. reflexivity.
Qed.

Local Open Scope Q_scope.

Lemma shown_amount_cents (x : Q) :
  exists k : Z, shown_amount x == inject_Z k / 100.
Proof.
  unfold shown_amount. destruct (Qle_bool 0 x).
  - exists (Z.of_N (cents_of x)). reflexivity.
  - exists (- Z.of_N (cents_of x))%Z. rewrite inject_Z_opp. field.
Qed.

(** X16: A formatted amount reads back as a whole number of cents within half
    a cent of the amount; an amount that is a whole number of cents reads
    back as itself. *)
Theorem format_amount_round_trip (x : Q) :
  exists c,
    parse_amount (format_amount x) = Some c /\
    Qabs (c - x) <= 1 # 200 /\
    (exists k : Z, c == inject_Z k / 100) /\
    (forall k : Z, x == inject_Z k / 100 -> c == x).
Proof.
  exists (shown_amount x). split; [apply parse_format_amount |].
  split; [apply shown_amount_near |].
  split; [apply shown_amount_cents |].
  intros k Hx.
  destruct (shown_amount_cents x) as (k' & Hk').
  pose proof (shown_amount_near x) as Hnear.
  apply Qabs_Qle_condition in Hnear. destruct Hnear as [Hlo Hhi].
  rewrite Hk', Hx in Hlo, Hhi. rewrite Hk', Hx.
  assert (Hd : inject_Z k' / 100 - inject_Z k / 100
               == inject_Z (k' - k) * (1 # 100)).
  { unfold Zminus. rewrite inject_Z_plus, inject_Z_opp. field. }
  rewrite Hd in Hlo, Hhi.
  assert (H1 : inject_Z (k' - k) < inject_Z 1) by (change (inject_Z 1) with 1; lra).
  assert (H2 : inject_Z (-1) < inject_Z (k' - k))
    by (change (inject_Z (-1)) with (-1); lra).
  rewrite <- Zlt_Qlt in H1, H2.
  replace k' with k by lia. reflexivity.
Qed.

Lemma cents_of_mono (x y : Q) :
  Qabs x <= Qabs y ->
  inject_Z (Z.of_N (cents_of x)) <= inject_Z (Z.of_N (cents_of y)).
Proof.
  intros Hle. rewrite !cents_of_value. rewrite <- Zle_Qle.
  apply round_half_even_mono. lra.
Qed.

Lemma cents_of_nonneg (x : Q) : 0 <= inject_Z (Z.of_N (cents_of x)).
Proof.
  change 0 with (inject_Z 0). rewrite <- Zle_Qle. lia.
Qed.

(** X17: formatting keeps the order of amounts: a larger amount never reads
    back as a smaller one. *)
Theorem format_amount_monotone (x y : Q) :
  x <= y ->
  exists cx cy,
    parse_amount (format_amount x) = Some cx /\
    parse_amount (format_amount y) = Some cy /\
    cx <= cy.
Proof.
  intros Hle. exists (shown_amount x), (shown_amount y).
  split; [apply parse_format_amount |]. split; [apply parse_format_amount |].
  unfold shown_amount. cbv zeta.
  pose proof (cents_of_nonneg x) as Hx0. pose proof (cents_of_nonneg y) as Hy0.
  assert (Hdiv : forall c, c / 100 == c * (1 # 100)) by (intros c; field).
  destruct (Qle_bool 0 x) eqn:Ex; destruct (Qle_bool 0 y) eqn:Ey;
    rewrite !Hdiv.
  - apply Qle_bool_iff in Ex, Ey.
    pose proof (cents_of_mono x y) as Hm.
    rewrite (Qabs_pos x Ex), (Qabs_pos y Ey) in Hm. specialize (Hm Hle). lra.
  - apply Qle_bool_iff in Ex. exfalso.
    assert (Hy : 0 <= y) by lra. apply Qle_bool_iff in Hy. congruence.
  - lra.
  - assert (Hx : x < 0).
    { destruct (Qlt_le_dec x 0) as [H | H]; [exact H |].
      apply Qle_bool_iff in H. congruence. }
    assert (Hy : y < 0).
    { destruct (Qlt_le_dec y 0) as [H | H]; [exact H |].
      apply Qle_bool_iff in H. congruence. }
    pose proof (cents_of_mono y x) as Hm.
    rewrite (Qabs_neg x), (Qabs_neg y) in Hm by lra.
    specialize (Hm ltac:(lra)). lra.
Qed.

Lemma format_amount_monotone_witness :
  exists cx cy,
    parse_amount (format_amount (1234567891 # 1000)) = Some cx /\
    parse_amount (format_amount (1234567895 # 1000)) = Some cy /\
    cx <= cy.
Proof.
  apply (format_amount_monotone (1234567891 # 1000) (1234567895 # 1000)).
  unfold Qle; cbn; lia.
Defined.

(** X18: [format_currency] keeps the rows and their "Année" and turns each
    amount into a string that reads back within half a cent of it. *)
Theorem format_currency_readable (df : list (TableRow Q)) :
  Forall2 (fun row shown =>
             f_annee shown = t_annee row /\
             reads_as (f_cashflow shown) (cashflow row) /\
             reads_as (f_remboursement shown) (t_remboursement row) /\
             reads_as (f_principal shown) (t_principal row) /\
             reads_as (f_interet shown) (t_interet row))
          df (format_currency df).
Proof.
  unfold format_currency. rewrite <- (map_id df) at 1.
  apply Forall2_map_same. intros row _.
  cbn [f_annee f_cashflow f_remboursement f_principal f_interet].
  split; [reflexivity |].
  repeat split; eexists; (split; [apply parse_format_amount | apply shown_amount_near]).
Qed.

(** The specification of [format] on doubles, on sample amounts. *)
Example format_amount_examples :
  map format_amount
      [1234567891 # 1000; 1 # 8; 3 # 8; - (12345 # 10); - (1 # 1000); 0; 1000]
  = ["$1,234,567.89"; "$0.12"; "$0.38"; "$-1,234.50"; "$-0.00"; "$0.00";
     "$1,000.00"]%string.
Proof. vm_compute. reflexivity. Qed.

Lemma format_amount_comp (x y : Q) : x == y -> format_amount x = format_amount y.
Proof.
  intros E. unfold format_amount, cents_of.
  assert (Hs : Qle_bool 0 x = Qle_bool 0 y).
  { destruct (Qle_bool 0 x) eqn:Ex; destruct (Qle_bool 0 y) eqn:Ey;
      try reflexivity.
    - apply Qle_bool_iff in Ex. rewrite E in Ex. apply Qle_bool_iff in Ex.
      congruence.
    - apply Qle_bool_iff in Ey. rewrite <- E in Ey. apply Qle_bool_iff in Ey.
      congruence. }
  assert (Hc : round_half_even (Qabs x * 100) = round_half_even (Qabs y * 100))
    by (apply round_half_even_comp; rewrite E; reflexivity).
  rewrite Hs, Hc. reflexivity.
Qed.

(** X19: on the page's domain, in each of the two display modes the payment
    cell of every row of the formatted table is the very string that
    formats the headline value. *)
Theorem main_displayed_payment (e s rate : Q) (ys : Z) (p : Q) (view : string) :
  view = "Annuel"%string \/ view = "Mensuel"%string ->
  0 <= e ->
  valid {| principal := p; annual_rate := rate; years := ys |} ->
  exists page,
    main e s rate ys p view = Ok page /\
    List.length (format_currency (yearly_table page)) = Z.to_nat ys /\
    Forall (fun shown =>
              f_remboursement shown = format_amount (value (metric page)))
           (format_currency (yearly_table page)).
Proof.
  intros Hview He Hv.
  destruct (main_table_rows e s rate ys p view Hview He Hv)
    as (page & Hm & Hy & _ & Hrows).
  exists page. split; [exact Hm |]. split.
  - unfold format_currency. rewrite length_map.
    rewrite <- (length_map t_annee), Hy, length_map, length_seq. reflexivity.
  - apply Forall_forall. intros shown Hin.
    unfold format_currency in Hin. apply in_map_iff in Hin.
    destruct Hin as (row & <- & Hrow). cbn [f_remboursement].
    rewrite Forall_forall in Hrows.
    apply format_amount_comp. apply (Hrows row Hrow).
Qed.

Lemma main_displayed_payment_witness :
  exists page,
    main 300000 1000000 (35 # 10) 7 700000 "Annuel" = Ok page /\
    List.length (format_currency (yearly_table page)) = Z.to_nat 7 /\
    Forall (fun shown =>
              f_remboursement shown = format_amount (value (metric page)))
           (format_currency (yearly_table page)).
Proof.
  apply (main_displayed_payment 300000 1000000 (35 # 10) 7 700000 "Annuel").
  - left. reflexivity.
  - unfold Qle; cbn; lia.
  - exact ex_loan_valid.
Defined.

(** The table for the form's default values, as displayed, next to the
    headline value. *)
Example default_page :
  match main 300000 1000000 (35 # 10) 7 700000 "Annuel" with
  | Ok page =>
      (format_amount (value (metric page)),
       map (fun shown => (f_annee shown, f_cashflow shown, f_remboursement shown))
           (firstn 2 (format_currency (yearly_table page))))
  | Raise _ => (EmptyString, [])
  end
  = ("$112,894.75",
     [ (1%Z, "$300,000.00", "$112,894.75");
       (2%Z, "$300,000.00", "$112,894.75") ])%string.
Proof. vm_compute. reflexivity. Qed.

(** * Double precision: where rounding changes the outcome *)

Local Open Scope Z_scope.

(** At 1200 % a year the monthly rate is 1.0, the discount [2.0 ** (-84)]
    is below half an ulp of 1.0, and the payment is the first interest. *)
Lemma large_rate_terms (libm_pow : float -> float -> float) :
  libm_pow 2%float (-84)%float = 0x1p-84%float ->
  @monthly_terms float (binary64 libm_pow) large_rate_loan
    = Ok (84, 1%float, 700000%float).
Proof.
  intros H. unfold monthly_terms.
  cbv. rewrite H. vm_compute. reflexivity.
Qed.

(** In double precision, at 1200 % a year over 7 years, the annuity
    denominator [1 - 2.0 ** (-84)] rounds to [1.0]: the payment equals the
    interest, and every one of the 84 principal portions is 0. *)
Lemma large_rate_pays_no_principal (libm_pow : float -> float -> float) :
  libm_pow 2%float (-84)%float = 0x1p-84%float ->
  exists df,
    @compute_monthly_schedule float (binary64 libm_pow) large_rate_loan = Ok df /\
    List.length (records df) = 84%nat /\
    map payment (records df) = repeat 700000%float 84 /\
    map interest (records df) = repeat 700000%float 84 /\
    map principal_paid (records df) = repeat 0%float 84 /\
    @col_sum float (binary64 libm_pow) principal_paid (records df) = 0%float.
Proof.
  intros H. unfold compute_monthly_schedule.
  rewrite (large_rate_terms libm_pow H). cbn [bind].
  eexists. split; [reflexivity |].
  repeat split; vm_compute; reflexivity.
Qed.





(** C2: in double precision a valid loan does not always get its rows.
    Whenever the monthly rate is not zero but [1 + monthly_rate] rounds to
    [1.0], the annuity denominator is [1 - 1.0 = 0.0] and
    [compute_monthly_schedule] raises [ZeroDivisionError], for every
    principal, every term and every C library [pow]. *)
Theorem tiny_rate_no_rows (libm_pow : float -> float -> float)
    (p rate : float) (y : Z) :
  PrimFloat.eqb (rate / 100 / 12) 0 = false ->
  (1 + rate / 100 / 12)%float = 1%float ->
  @compute_monthly_schedule float (binary64 libm_pow)
    {| principal := p; annual_rate := rate; years := y |}
  = Raise ZeroDivisionError.
Proof.
  intros Hnz Hone. unfold compute_monthly_schedule, monthly_terms.
  cbn [principal annual_rate years].
  unfold py_div at 1. rewrite binary64_100_nonzero. cbn [bind].
  unfold py_div at 1. rewrite binary64_12_nonzero. cbn [bind].
  change (@fquot float (binary64 libm_pow)
            (@fquot float (binary64 libm_pow) rate
               (@of_int float (binary64 libm_pow) 100))
            (@of_int float (binary64 libm_pow) 12))
    with (rate / 100 / 12)%float.
  change (@feqb float (binary64 libm_pow) (rate / 100 / 12)%float
            (@of_int float (binary64 libm_pow) 0))
    with (PrimFloat.eqb (rate / 100 / 12) 0).
  rewrite Hnz.
  change (@fadd float (binary64 libm_pow)
            (@of_int float (binary64 libm_pow) 1) (rate / 100 / 12)%float)
    with (1 + rate / 100 / 12)%float.
  rewrite Hone. unfold py_pow.
  change (@feqb float (binary64 libm_pow) 1%float
            (@of_int float (binary64 libm_pow) 0)) with false.
  cbn [andb].
  change (@fpow float (binary64 libm_pow) 1%float (- (y * 12)))
    with (float_pow libm_pow 1%float (- (y * 12))).
  assert (Hp : float_pow libm_pow 1%float (- (y * 12)) = 1%float).
  { unfold float_pow. destruct (- (y * 12) =? 0); reflexivity. }
  rewrite Hp. reflexivity.
Qed.

Lemma tiny_rate_no_rows_witness :
  @compute_monthly_schedule float (binary64 libm_pow_sample)
    {| principal := 700000%float; annual_rate := 0x1p-50%float; years := 7 |}
  = Raise ZeroDivisionError.
Proof.
  apply (tiny_rate_no_rows libm_pow_sample 700000%float 0x1p-50%float 7).
  - vm_compute. reflexivity.
  - vm_compute. reflexivity.
Defined.

(** In double precision, at 1200 % a year over 7 years, every principal
    portion is 0, so the loop-carried balance is still 700000 after each
    of the 84 months. *)
Lemma large_rate_balance_stays (libm_pow : float -> float -> float) :
  libm_pow 2%float (-84)%float = 0x1p-84%float ->
  map (fun k => @balance_after float (binary64 libm_pow) large_rate_loan
                  (Z.of_nat k))
      (seq 0 85)
  = repeat (Ok 700000%float) 85.
Proof.
  intros H. unfold balance_after.
  rewrite (large_rate_terms libm_pow H). vm_compute. reflexivity.
Qed.









(** In double precision the mean of a year times its month count is not
    always the year's total: for one year of seven months with payments
    1, 2, 3, 4, 5, 6 and 8 (sums are exact in any order) the total is 29,
    the mean is [29 / 7], and [29 / 7 * 7] is not 29. *)
Lemma mean_times_count_not_total :
  List.length (filter (fun row => year row =? 1) ex_partial_year) = 7%nat /\
  match @aggregate_schedule float (binary64 libm_pow_sample)
          (pd_DataFrame ex_partial_year) "Annuel",
        @aggregate_schedule float (binary64 libm_pow_sample)
          (pd_DataFrame ex_partial_year) "Mensuel" with
  | Ok [t], Ok [m] =>
      annee t = 1 /\ annee m = 1 /\
      remboursement t = 29%float /\
      remboursement m = (29 / 7)%float /\
      PrimFloat.eqb (remboursement m * 7) (remboursement t) = false
  | _, _ => False
  end.
Proof. vm_compute. repeat split; reflexivity. Qed.

(** In any arithmetic, both modes return for a non-empty schedule, with one
    row per distinct year in ascending order, and each mean is the one
    division of the year's total by the year's month count. *)
Lemma means_are_totals_over_count {F : Type} `{PyFloat F} (rows : list (Row F)) :
  rows <> [] ->
  exists totals means,
    aggregate_schedule (pd_DataFrame rows) "Annuel" = Ok totals /\
    aggregate_schedule (pd_DataFrame rows) "Mensuel" = Ok means /\
    StronglySorted Z.lt (map annee means) /\
    (forall y, In y (map annee means) <-> In y (map year rows)) /\
    Forall2
      (fun t m =>
         let count :=
           Z.of_nat (List.length
             (filter (fun row => year row =? annee t) rows)) in
         annee m = annee t /\ 1 <= count /\
         remboursement m = fquot (remboursement t) (of_int count) /\
         principal_col m = fquot (principal_col t) (of_int count) /\
         interet m = fquot (interet t) (of_int count))
      totals means.
Proof.
  intros Hne.
  assert (Hdf : pd_DataFrame rows = Schedule rows)
    by (destruct rows; [contradiction | reflexivity]).
  rewrite Hdf, aggregate_schedule_totals by discriminate.
  rewrite aggregate_schedule_means.
  eexists _, _. split; [reflexivity |]. split; [reflexivity |].
  rewrite map_map. cbn [annee]. rewrite map_id.
  split; [apply group_keys_sorted |].
  split; [apply group_keys_In |].
  apply Forall2_map_same. intros y Hy.
  cbn [annee remboursement principal_col interet].
  pose proof (group_nonempty rows y Hy) as Hlen.
  fold (group rows y).
  repeat split. lia.
Qed.

(** C7: in every arithmetic, average mode returns one row per distinct
    year, ascending, each value being the one division of the totals-mode
    value by the number of months of that year; in exact arithmetic each
    value is the year's sum divided by its month count, and the mean times
    the month count is the total. *)
Theorem yearly_means_by_arithmetic :
  (forall (F : Type) (A : PyFloat F) (rows : list (Row F)),
     rows <> [] ->
     exists totals means,
       aggregate_schedule (pd_DataFrame rows) "Annuel" = Ok totals /\
       aggregate_schedule (pd_DataFrame rows) "Mensuel" = Ok means /\
       StronglySorted Z.lt (map annee means) /\
       (forall y, In y (map annee means) <-> In y (map year rows)) /\
       Forall2
         (fun t m =>
            let count :=
              Z.of_nat (List.length
                (filter (fun row => year row =? annee t) rows)) in
            annee m = annee t /\ 1 <= count /\
            remboursement m = fquot (remboursement t) (of_int count) /\
            principal_col m = fquot (principal_col t) (of_int count) /\
            interet m = fquot (interet t) (of_int count))
         totals means) /\
  (forall rows : list (Row Q),
     rows <> [] ->
     exists totals means,
       aggregate_schedule (pd_DataFrame rows) "Annuel" = Ok totals /\
       aggregate_schedule (pd_DataFrame rows) "Mensuel" = Ok means /\
       StronglySorted Z.lt (map annee means) /\
       (forall y, In y (map annee means) <-> In y (map year rows)) /\
       Forall2
         (fun t m =>
            let months := filter (fun row => year row =? annee t) rows in
            let count := inject_Z (Z.of_nat (List.length months)) in
            (annee m = annee t /\ 0 < count /\
             remboursement m == Qsum (map payment months) / count /\
             principal_col m == Qsum (map principal_paid months) / count /\
             interet m == Qsum (map interest months) / count /\
             remboursement m * count == remboursement t /\
             principal_col m * count == principal_col t /\
             interet m * count == interet t)%Q)
         totals means).
Proof.
  split.
  - intros F A rows. apply means_are_totals_over_count.
  - intros rows Hne.
    assert (Hdf : pd_DataFrame rows = Schedule rows)
      by (destruct rows; [contradiction | reflexivity]).
    rewrite Hdf, aggregate_schedule_totals by discriminate.
    rewrite aggregate_schedule_means.
    eexists _, _. split; [reflexivity |]. split; [reflexivity |].
    rewrite map_map. cbn [annee]. rewrite map_id.
    split; [apply group_keys_sorted |].
    split; [apply group_keys_In |].
    apply Forall2_map_same. intros y Hy.
    cbn [annee remboursement principal_col interet].
    pose proof (group_nonempty rows y Hy) as Hlen.
    fold (group rows y).
    assert (Hc : (0 < inject_Z (Z.of_nat (List.length (group rows y))))%Q).
    { change 0%Q with (inject_Z 0). rewrite <- Zlt_Qlt. lia. }
    cbn [of_int exact].
    pose proof (col_sum_exact payment (group rows y)) as E1.
    pose proof (col_sum_exact principal_paid (group rows y)) as E2.
    pose proof (col_sum_exact interest (group rows y)) as E3.
    set (c := inject_Z (Z.of_nat (List.length (group rows y)))) in *.
    split; [reflexivity |]. split; [exact Hc |].
    rewrite !exact_quot, <- E1, <- E2, <- E3.
    repeat split; try reflexivity; field; lra.
Qed.

Lemma yearly_means_by_arithmetic_witness :
  (exists totals means,
     @aggregate_schedule float (binary64 libm_pow_sample)
       (pd_DataFrame ex_partial_year) "Annuel" = Ok totals /\
     @aggregate_schedule float (binary64 libm_pow_sample)
       (pd_DataFrame ex_partial_year) "Mensuel" = Ok means /\
     StronglySorted Z.lt (map annee means) /\
     (forall y, In y (map annee means) <-> In y (map year ex_partial_year)) /\
     Forall2
       (fun t m =>
          let count :=
            Z.of_nat (List.length
              (filter (fun row => year row =? annee t) ex_partial_year)) in
          annee m = annee t /\ 1 <= count /\
          remboursement m
            = @fquot float (binary64 libm_pow_sample) (remboursement t)
                (@of_int float (binary64 libm_pow_sample) count) /\
          principal_col m
            = @fquot float (binary64 libm_pow_sample) (principal_col t)
                (@of_int float (binary64 libm_pow_sample) count) /\
          interet m
            = @fquot float (binary64 libm_pow_sample) (interet t)
                (@of_int float (binary64 libm_pow_sample) count))
       totals means) /\
  (exists totals means,
     aggregate_schedule (pd_DataFrame ex_rows) "Annuel" = Ok totals /\
     aggregate_schedule (pd_DataFrame ex_rows) "Mensuel" = Ok means /\
     StronglySorted Z.lt (map annee means) /\
     (forall y, In y (map annee means) <-> In y (map year ex_rows)) /\
     Forall2
       (fun t m =>
          let months := filter (fun row => year row =? annee t) ex_rows in
          let count := inject_Z (Z.of_nat (List.length months)) in
          (annee m = annee t /\ 0 < count /\
           remboursement m == Qsum (map payment months) / count /\
           principal_col m == Qsum (map principal_paid months) / count /\
           interet m == Qsum (map interest months) / count /\
           remboursement m * count == remboursement t /\
           principal_col m * count == principal_col t /\
           interet m * count == interet t)%Q)
       totals means).
Proof.
  split.
  - apply (proj1 yearly_means_by_arithmetic float (binary64 libm_pow_sample)
             ex_partial_year).
    discriminate.
  - apply (proj2 yearly_means_by_arithmetic ex_rows). discriminate.
Defined.

(** In any arithmetic, a negative term runs no iteration: a schedule that
    is returned is the frame without rows or columns, which
    [aggregate_schedule] refuses. *)
Lemma negative_term_no_rows {F : Type} `{PyFloat F}
    (loan : LoanInputs F) (df : DataFrame F) (view : string) :
  years loan < 0 ->
  compute_monthly_schedule loan = Ok df ->
  df = pd_DataFrame [] /\ aggregate_schedule df view = Raise (KeyError "year").
Proof.
  intros HY. unfold compute_monthly_schedule, monthly_terms.
  destruct (py_div (annual_rate loan) (of_int 100)) as [pct |]; [| discriminate].
  cbn [bind].
  destruct (py_div pct (of_int 12)) as [r |]; [| discriminate]. cbn [bind].
  destruct (if feqb r (of_int 0) then _ else _) as [M |]; [| discriminate].
  cbn [bind]. rewrite run_loop_nonpos by lia.
  intros E. injection E as <-. split; reflexivity.
Qed.

(** In double precision, 1200 % a year over -100 years asks for
    [2.0 ** 1200], which is out of range. *)
Lemma negative_term_overflow (libm_pow : float -> float -> float) :
  libm_pow 2%float 1200%float = PrimFloat.infinity ->
  @compute_monthly_schedule float (binary64 libm_pow) overflow_loan
    = Raise OverflowError.
Proof.
  intros H. unfold compute_monthly_schedule, monthly_terms.
  cbv. rewrite H. vm_compute. reflexivity.
Qed.

(** X5: a negative term (outside the documented domain) never yields rows.
    In any arithmetic a schedule that is returned is the frame without
    rows or columns, and aggregating it, as [main] does, raises
    [KeyError]; in exact arithmetic with a rate >= 0 that frame is
    returned; in double precision the power [(1 + monthly_rate) **
    (-months)] can overflow, and then [compute_monthly_schedule] raises
    [OverflowError] (1200 % a year over -100 years). *)
Theorem negative_term_outcomes :
  (forall (F : Type) (A : PyFloat F) (loan : LoanInputs F)
          (df : DataFrame F) (view : string),
     years loan < 0 ->
     compute_monthly_schedule loan = Ok df ->
     df = pd_DataFrame [] /\
     aggregate_schedule df view = Raise (KeyError "year")) /\
  (forall (loan : LoanInputs Q) (view : string),
     (0 <= annual_rate loan)%Q -> years loan < 0 ->
     compute_monthly_schedule loan = Ok (pd_DataFrame []) /\
     (df <- compute_monthly_schedule loan ;; aggregate_schedule df view)
       = Raise (KeyError "year")) /\
  (forall libm_pow : float -> float -> float,
     libm_pow 2%float 1200%float = PrimFloat.infinity ->
     @compute_monthly_schedule float (binary64 libm_pow) overflow_loan
       = Raise OverflowError).
Proof.
  split; [| split].
  - intros F A loan df view. apply negative_term_no_rows.
  - intros loan view. apply negative_term_pipeline.
  - exact negative_term_overflow.
Qed.

Lemma negative_term_outcomes_witness :
  (@NoColumns float = pd_DataFrame [] /\
   @aggregate_schedule float (binary64 libm_pow_sample) (@NoColumns float)
     "Annuel"
     = Raise (KeyError "year")) /\
  (compute_monthly_schedule
     {| principal := 700000%Q; annual_rate := 3.5%Q; years := -1 |}
     = Ok (pd_DataFrame []) /\
   (df <- compute_monthly_schedule
            {| principal := 700000%Q; annual_rate := 3.5%Q; years := -1 |} ;;
    aggregate_schedule df "Annuel")
     = Raise (KeyError "year")) /\
  @compute_monthly_schedule float (binary64 libm_pow_sample) overflow_loan
    = Raise OverflowError.
Proof.
  split; [| split].
  - apply (proj1 negative_term_outcomes float (binary64 libm_pow_sample)
             {| principal := 700000%float; annual_rate := 0%float;
                years := -1 |}).
    + vm_compute. reflexivity.
    + vm_compute. reflexivity.
  - apply (proj1 (proj2 negative_term_outcomes)
             {| principal := 700000%Q; annual_rate := 3.5%Q; years := -1 |}
             "Annuel").
    + vm_compute. discriminate.
    + vm_compute. reflexivity.
  - apply (proj2 (proj2 negative_term_outcomes) libm_pow_sample).
    vm_compute. reflexivity.
Defined.
